(** * rssant worker service: feed synchronisation and story enrichment

    Shallow embedding of [rssant_worker/worker_service.py].  The worker
    composes external collaborators (connectivity policy, feed transport,
    feed parsing, content extraction, the result sink); these are taken as
    interfaces, and the orchestration code of the worker is embedded on top
    of them in a monad that threads the state of the outside world, records
    the observable events in order, and propagates Python exceptions. *)

From Stdlib Require Import ZArith QArith Ascii String Sorted Permutation Lia.
From stdpp Require Import gmap strings list sorting.

Local Open Scope string_scope.
Local Open Scope Z_scope.
Local Open Scope list_scope.
Local Open Scope stdpp_scope.

(** ** Python values and helpers *)

Definition Url := string.
Definition bytes := list Byte.byte.

(** Flat Python values, as stored in keyword-argument and result dicts. *)
Inductive Val : Type :=
  | VNone
  | VBool (b : bool)
  | VInt (z : Z)
  | VStr (s : string)
  | VObj (name : string).

Definition opt_str (o : option string) : Val :=
  match o with Some s => VStr s | None => VNone end.

(** [len] of a Python string or bytes object, as an integer. *)
Definition len (s : string) : Z := Z.of_nat (String.length s).
Definition blen (b : bytes) : Z := Z.of_nat (List.length b).

(** Truthiness of [str], [bytes] and optional strings. *)
Definition str_truthy (s : string) : bool :=
  match s with EmptyString => false | _ => true end.

Definition bytes_truthy (b : bytes) : bool :=
  match b with [] => false | _ => true end.

Definition ostr_truthy (o : option string) : bool :=
  match o with Some s => str_truthy s | None => false end.

(** [a or b] on optional strings: the first operand when truthy. *)
Definition py_or (a b : option string) : option string :=
  if ostr_truthy a then a else b.

(** [str(x)] of an optional string inside an f-string or [%s]. *)
Definition fmt_ostr (o : option string) : string :=
  match o with Some s => s | None => "None" end.

(** [s[:n]] for a non-negative bound. *)
Fixpoint str_prefix (n : Z) (s : string) : string :=
  match s with
  | EmptyString => EmptyString
  | String c s' => if 0 <? n then String c (str_prefix (n - 1) s') else EmptyString
  end.

(** [s * n] for a positive count. *)
Fixpoint str_mul (s : string) (n : positive) : string :=
  match n with
  | xH => s
  | xO n' => str_mul s n' +:+ str_mul s n'
  | xI n' => s +:+ str_mul s n' +:+ str_mul s n'
  end.

(** [x == y] between a string and an optional string. *)
Definition str_eq_ostr (x : string) (y : option string) : bool :=
  match y with Some s => bool_decide (x = s) | None => false end.

(** ** Module constants *)

Definition _MAX_STORY_HTML_LENGTH : Z := 5 * 1000 * 1024.
Definition _MAX_STORY_CONTENT_LENGTH : Z := 1000 * 1024.
Definition _MAX_STORY_SUMMARY_LENGTH : Z := 300.

(** ** Data model *)

(** Modelled from the spec: [rssant_api.models.FeedStatus] is not part of
    the sources at hand; these are the members the worker reports. *)
Inductive FeedStatus : Type := UPDATING | READY | ERROR.

(** The response of the transport.  The worker only tests the truth value
    of [content] and takes its length, so a missing body is the empty
    body. *)
Record FeedResponse : Type := mkFeedResponse {
  resp_status : Z;
  resp_ok : bool;
  resp_content : bytes;
  resp_url : option string;
  resp_etag : option string;
  resp_last_modified : option string;
  resp_encoding : string;
  resp_use_proxy : bool;
}.

(** A normalized story, as built by [get_story_of_feed_entry]. *)
Record Story : Type := mkStory {
  story_unique_id : string;
  story_title : option string;
  story_link : option string;
  story_dt_published : Z;
  story_summary : option string;
  story_content : option string;
}.

(** The normalized feed assembled by [_parse_found]; the validated feed
    data has the same entries. *)
Record Feed : Type := mkFeed {
  feed_use_proxy : bool;
  feed_url : option string;
  feed_content_length : Z;
  feed_content_hash_base64 : string;
  feed_etag : option string;
  feed_last_modified : option string;
  feed_encoding : string;
  feed_response_status : Z;
  feed_title : option string;
  feed_link : option string;
  feed_author : option string;
  feed_icon : option string;
  feed_description : option string;
  feed_dt_updated : option Z;
  feed_version : option string;
  feed_storys : list Story;
  feed_checksum_data_base64 : string;
  feed_warnings : option string;
}.

(** [feed_data['storys'] = storys] *)
Definition set_storys (l : list Story) (f : Feed) : Feed :=
  {| feed_use_proxy := feed_use_proxy f; feed_url := feed_url f;
     feed_content_length := feed_content_length f;
     feed_content_hash_base64 := feed_content_hash_base64 f;
     feed_etag := feed_etag f; feed_last_modified := feed_last_modified f;
     feed_encoding := feed_encoding f;
     feed_response_status := feed_response_status f;
     feed_title := feed_title f; feed_link := feed_link f;
     feed_author := feed_author f; feed_icon := feed_icon f;
     feed_description := feed_description f;
     feed_dt_updated := feed_dt_updated f;
     feed_version := feed_version f; feed_storys := l;
     feed_checksum_data_base64 := feed_checksum_data_base64 f;
     feed_warnings := feed_warnings f |}.

(** [validr.Invalid]: the message [args[0]] and the remaining [args]. *)
Record Invalid : Type := mkInvalid {
  args0 : string;
  args_rest : list string;
}.

(** The exceptions the worker raises, catches or lets through. *)
Inductive Exn : Type :=
  | ExInvalid (ex : Invalid)
  | FeedParserError (msg : string)
  | UnicodeError (msg : string)
  | UnboundLocalError (name : string).

Definition is_invalid_or_parser_error (e : Exn) : bool :=
  match e with
  | ExInvalid _ | FeedParserError _ => true
  | _ => false
  end.

Definition is_parser_error (e : Exn) : bool :=
  match e with FeedParserError _ => true | _ => false end.

Definition is_unicode_error (e : Exn) : bool :=
  match e with UnicodeError _ => true | _ => false end.

(** ** Result sink calls and observable events *)

(** [SERVICE_CLIENT.call(method, payload)], one constructor per method, the
    arguments being the entries of the payload dict. *)
Inductive SinkCall : Type :=
  | update_feed_creation_status (feed_creation_id : Z) (st : FeedStatus)
  | save_feed_creation_result
      (feed_creation_id : Z) (messages : list string) (feed : option Feed)
  | update_feed_info
      (feed_id : Z) (st : option FeedStatus) (response_status : Z)
      (warnings : option string)
  | update_feed (feed_id : Z) (feed : Feed) (is_refresh : bool)
  | update_story (result : gmap string Val).

(** The records logged at warning and error level. *)
Inductive LogRecord : Type :=
  | LogStoryInvalid (ex : Invalid) (feed_info story_info : option string)
  | LogInvalidFeedUrl (url : Url) (ex : Exn)
  | LogRawParseFailed (feed_id : Z) (url : Url) (ex : Exn)
  | LogParseWarnings (feed_id : Z) (url : Url) (warnings : string)
  | LogInvalidFeed (feed_id : Z) (url : Url) (ex : Exn)
  | LogTooLargeStory (feed_id offset size : Z) (url : Url)
  | LogOnlyPlainText (feed_id offset size : Z) (url : Url)
  | LogUnicodeError (msg : string) (url : Url).

(** Each event carries the request and, for reads and random draws, what
    the outside world answered. *)
Inductive Event : Type :=
  | ERead (url : Url) (params : gmap string Val) (use_proxy : bool)
      (response : FeedResponse)
  | ERandom (r : Q)
  | EFind (url : Url) (use_proxy : bool)
  | ERawParse (response : FeedResponse)
  | EChecksumDiff (has_history : bool)
  | ECall (c : SinkCall)
  | ELog (r : LogRecord).

Definition sink_calls (t : list Event) : list SinkCall :=
  omap (λ e, match e with ECall c => Some c | _ => None end) t.

(** The transport reads of a trace: the [use_proxy] flag of each and the
    response it got. *)
Definition reads (t : list Event) : list (bool * FeedResponse) :=
  omap (λ e, match e with ERead _ _ b r => Some (b, r) | _ => None end) t.

Definition is_parse_event (e : Event) : bool :=
  match e with ERawParse _ | EChecksumDiff _ => true | _ => false end.

(** ** The worker monad: world state, event trace, exceptions *)

Section Monad.
Context {W : Type}.

Definition M (A : Type) : Type := W → (Exn + A) * list Event * W.

Definition ret {A} (a : A) : M A := λ w, (inr a, [], w).

Definition bind {A B} (c : M A) (k : A → M B) : M B := λ w,
  match c w with
  | (inl e, t, w1) => (inl e, t, w1)
  | (inr a, t, w1) =>
      match k a w1 with (r, t2, w2) => (r, t ++ t2, w2) end
  end.

Definition raise {A} (e : Exn) : M A := λ w, (inl e, [], w).

(** [try: c  except <classes p> as ex: h ex] *)
Definition try_except {A} (c : M A) (p : Exn → bool) (h : Exn → M A) : M A :=
  λ w,
  match c w with
  | (inl e, t, w1) =>
      if p e then match h e w1 with (r, t2, w2) => (r, t ++ t2, w2) end
      else (inl e, t, w1)
  | (inr a, t, w1) => (inr a, t, w1)
  end.

Definition emit (e : Event) : M unit := λ w, (inr tt, [e], w).

Definition log (r : LogRecord) : M unit := emit (ELog r).

(** An effect of the outside world, recorded as the event [ev a]. *)
Definition perform {A} (f : W → A * W) (ev : A → Event) : M A := λ w,
  match f w with (a, w1) => (inr a, [ev a], w1) end.

(** Reading the world without changing it. *)
Definition ask {A} (f : W → A) : M A := λ w, (inr (f w), [], w).

(** A pure function that may raise the exception built by [mk]. *)
Definition lift {E A} (mk : E → Exn) (r : E + A) : M A := λ w,
  match r with
  | inl e => (inl (mk e), [], w)
  | inr a => (inr a, [], w)
  end.
End Monad.

Arguments M : clear implicits.

Notation "'let*' p := c 'in' k" := (bind c (λ p, k))
  (at level 10, p pattern, c at level 200, k at level 200,
   format "'[v' 'let*'  p  :=  c  'in'  '/' k ']'").
Notation "c ;;; k" := (bind c (λ _, k))
  (at level 100, right associativity).

(** [x < y] on rationals, as a boolean. *)
Definition Qltb (x y : Q) : bool := negb (Qle_bool y x).

(** ** Collaborators

    Everything the worker imports from the rest of the code base and from
    its libraries.  Informational logging ([LOG.info]) has no bearing on
    control flow and is not recorded; warnings and errors are. *)

Record RawFeedResult : Type := mkRawFeedResult {
  raw_storys : list (gmap string Val);
  raw_warnings : list string;
}.

(** [result.feed] of the feed parser. *)
Record FeedInfo : Type := mkFeedInfo {
  info_title : option string;
  info_home_url : option string;
  info_author_name : option string;
  info_icon_url : option string;
  info_description : option string;
  info_dt_updated : option Z;
  info_version : option string;
}.

Record ParseResult (C : Type) : Type := mkParseResult {
  result_feed : FeedInfo;
  result_storys : list (gmap string Val);
  result_checksum : C;
}.

Arguments result_feed {C} _.
Arguments result_storys {C} _.
Arguments result_checksum {C} _.

(** Connectivity policy ([_proxy_helper], [DNS_SERVICE], [CONFIG]), feed
    transport, the random source, the clock and the result sink: all of
    them live in the world [W]. *)
Class World (W : Type) : Type := {
  get_proxy_options : Url → gmap string Val;
  is_use_proxy_url : Url → bool;
  is_resolved_url : Url → W → bool;
  feed_reader_request_timeout : Z;
  (* [reader.has_proxy] of a reader built from the given options *)
  has_proxy : gmap string Val → bool;
  (* [reader.read(url, params, use_proxy)] on a [FeedReader] built from
     the given options *)
  reader_read :
    gmap string Val → Url → gmap string Val → bool → W → FeedResponse * W;
  (* [reader.read(url, use_proxy)] on an [AsyncFeedReader] *)
  async_reader_read : gmap string Val → Url → bool → W → FeedResponse * W;
  (* [finder.find(use_proxy)] on a [FeedFinder] for the url, with the
     messages it hands to [message_handler] *)
  finder_find :
    gmap string Val → Url → bool → W →
    (list string * option (FeedResponse * RawFeedResult)) * W;
  is_need_proxy : Z → bool;
  random_random : W → Q * W;
  timezone_now : W → Z;
  service_call : SinkCall → W → gmap string Val * W;
}.

(** Feed parsing, checksums, hashing and schema validation.  The
    collaborators raise the exceptions the worker has handlers for, and no
    others: the parsers [FeedParserError], the validators [Invalid]. *)
Class FeedLib : Type := {
  Checksum : Type;
  compute_hash_base64 : bytes → string;
  UrlsafeBase64_decode : option string → option bytes;
  UrlsafeBase64_encode : bytes → string;
  FeedChecksum_load : bytes → Checksum;
  FeedChecksum_dump : Checksum → Z → bytes;
  (* the parsers fail with [FeedParserError(msg)] *)
  RawFeedParser_parse : FeedResponse → string + RawFeedResult;
  FeedParser_parse :
    option Checksum → RawFeedResult → string + ParseResult Checksum;
  get_story_of_feed_entry : gmap string Val → Z → Story;
  _validate_feed : Feed → Invalid + Feed;
  _validate_story : Story → Invalid + Story;
  (* [str(ex)] *)
  str_exn : Exn → string;
}.

(** HTML processing and the full-text heuristics. *)
Class Extractor : Type := {
  ContentInfo : Type;
  str_strip : string → string;
  story_html_clean : string → string;
  story_html_to_text : string → string;
  story_readability : string → string;
  process_story_links : string → Url → string;
  StoryContentInfo : string → ContentInfo;
  info_text : ContentInfo → string;
  is_fulltext_content : ContentInfo → bool;
  shorten : string → Z → string;
  split_sentences : string → list string;
  get_html_redirect_url : string → option string;
  (* [b.decode(encoding)], which may raise [UnicodeError(msg)] *)
  bytes_decode : bytes → string → string + string;
  (* [b.decode(encoding, errors='ignore')] *)
  bytes_decode_ignore : bytes → string → string;
}.

(** ** [sorted(l, key=..., reverse=True)]

    Python's sort is stable, also with [reverse=True]: elements with equal
    keys keep their original order. *)

Section PySorted.
Context {A : Type} (key : A → Z).

Fixpoint insert_reverse (x : A) (l : list A) : list A :=
  match l with
  | [] => [x]
  | y :: l' => if key y <=? key x then x :: y :: l' else y :: insert_reverse x l'
  end.

Definition sorted_reverse (l : list A) : list A := foldr insert_reverse [] l.

(** The order the result is in: [a] may come before [b]. *)
Definition key_ge (a b : A) : Prop := key b ≤ key a.
End PySorted.

(** ** Validation and normalization *)

Section Worker.
Context {W : Type} `{!World W} `{!FeedLib} `{!Extractor}.

Definition annotate_invalid (ex : Invalid) (feed_info : option string) : Invalid :=
  {| args0 := args0 ex +:+ ", feed=" +:+ fmt_ostr feed_info;
     args_rest := args_rest ex |}.

Definition feed_info_of (feed : Feed) : option string :=
  py_or (py_or (feed_url feed) (feed_link feed)) (feed_title feed).

Definition story_info_of (story : Story) : option string :=
  py_or (py_or (story_link story) (story_title story)) (story_link story).

(** The loop of [validate_feed]: [todo] is what is left of
    [feed_data['storys']], [storys] the list built so far. *)
Fixpoint validate_storys (feed_info : option string)
    (todo : list Story) (storys : list Story) : M W (list Story) :=
  match todo with
  | [] => ret storys
  | story :: todo' =>
      match _validate_story story with
      | inl ex =>
          let story_info := story_info_of story in
          log (LogStoryInvalid ex feed_info story_info) ;;;
          validate_storys feed_info todo' storys
      | inr story' => validate_storys feed_info todo' (storys ++ [story'])
      end
  end.

Definition validate_feed (feed : Feed) : M W Feed :=
  let feed_info := feed_info_of feed in
  match _validate_feed feed with
  | inl ex => raise (ExInvalid (annotate_invalid ex feed_info))
  | inr feed_data =>
      let* storys := validate_storys feed_info (feed_storys feed_data) [] in
      ret (set_storys storys feed_data)
  end.

(** What the loop keeps of one story, and what it logs for it. *)
Definition valid_story (story : Story) : option Story :=
  match _validate_story story with
  | inr story' => Some story'
  | inl _ => None
  end.

Definition invalid_story_log (feed_info : option string) (story : Story)
    : option Event :=
  match _validate_story story with
  | inr _ => None
  | inl ex => Some (ELog (LogStoryInvalid ex feed_info (story_info_of story)))
  end.

Definition _get_storys (entries : list (gmap string Val)) : M W (list Story) :=
  let* now := ask timezone_now in
  let storys := (λ data, get_story_of_feed_entry data now) <$> entries in
  ret (sorted_reverse story_dt_published storys).

Definition join_warnings (ws : list string) : option string :=
  match ws with
  | [] => None
  | _ => Some (String.concat "; " ws)
  end.

Definition _parse_found (found : FeedResponse * RawFeedResult)
    (checksum_data_base64 : option string) (is_refresh : bool) : M W Feed :=
  let '(response, raw_result) := found in
  let checksum_data := UrlsafeBase64_decode checksum_data_base64 in
  let checksum :=
    match checksum_data with
    | Some data =>
        if bytes_truthy data && negb is_refresh
        then Some (FeedChecksum_load data) else None
    | None => None
    end in
  emit (EChecksumDiff (bool_decide (is_Some checksum))) ;;;
  let* result := lift FeedParserError (FeedParser_parse checksum raw_result) in
  let checksum_data := FeedChecksum_dump (result_checksum result) 300 in
  let checksum_data_base64 := UrlsafeBase64_encode checksum_data in
  let warnings := join_warnings (raw_warnings raw_result) in
  let* storys := _get_storys (result_storys result) in
  validate_feed
    {| feed_use_proxy := resp_use_proxy response;
       feed_url := resp_url response;
       feed_content_length := blen (resp_content response);
       feed_content_hash_base64 := compute_hash_base64 (resp_content response);
       feed_etag := resp_etag response;
       feed_last_modified := resp_last_modified response;
       feed_encoding := resp_encoding response;
       feed_response_status := resp_status response;
       feed_title := info_title (result_feed result);
       feed_link := info_home_url (result_feed result);
       feed_author := info_author_name (result_feed result);
       feed_icon := info_icon_url (result_feed result);
       feed_description := info_description (result_feed result);
       feed_dt_updated := info_dt_updated (result_feed result);
       feed_version := info_version (result_feed result);
       feed_storys := storys;
       feed_checksum_data_base64 := checksum_data_base64;
       feed_warnings := warnings |}.

(** ** The result sink *)

Definition call (c : SinkCall) : M W (gmap string Val) :=
  perform (service_call c) (λ _, ECall c).

Definition _update_feed_info (feed_id : Z) (response : FeedResponse)
    (st : option FeedStatus) (warnings : option string) : M W (gmap string Val) :=
  call (update_feed_info feed_id st (resp_status response) warnings).

(** ** Feed discovery *)

Definition find_feed (feed_creation_id : Z) (url : Url) : M W unit :=
  call (update_feed_creation_status feed_creation_id UPDATING) ;;;
  let options := get_proxy_options url in
  let options := <["message_handler" := VObj "message_handler"]> options in
  let options := <["request_timeout" := VInt feed_reader_request_timeout]> options in
  let options := <["dns_service" := VObj "DNS_SERVICE"]> options in
  let use_proxy := is_use_proxy_url url in
  let* (messages, found) :=
    perform (finder_find options url use_proxy) (λ _, EFind url use_proxy) in
  let* (messages, feed) :=
    try_except
      (match found with
       | Some found => let* feed := _parse_found found None false in
                       ret (messages, Some feed)
       | None => ret (messages, None)
       end)
      is_invalid_or_parser_error
      (λ ex,
        log (LogInvalidFeedUrl url ex) ;;;
        ret (messages ++ ["invalid feed: " +:+ str_exn ex], None)) in
  call (save_feed_creation_result feed_creation_id messages feed) ;;;
  ret tt.

(** ** Feed synchronization *)

Definition switch_prob : Q := 25 # 100.

(** Lines 149-157 of [sync_feed]: the [use_proxy] flag handed to the first
    [reader.read]. *)
Definition proxy_decision (options : gmap string Val) (url : Url)
    (use_proxy : bool) : M W bool :=
  let* resolved := ask (is_resolved_url url) in
  let use_proxy := if resolved then false else use_proxy in
  let use_proxy := has_proxy options && use_proxy in
  let* use_proxy :=
    (if use_proxy then
       let* r := perform random_random ERandom in
       ret (if Qltb r switch_prob then false else use_proxy)
     else ret use_proxy) in
  ret (if is_use_proxy_url url then true else use_proxy).

(** Lines 144-168 of [sync_feed]: the conditional fetch and its single
    retry through the proxy. *)
Definition sync_feed_read (url : Url) (use_proxy : bool)
    (etag last_modified : option string) (is_refresh : bool) : M W FeedResponse :=
  let params : gmap string Val :=
    if negb is_refresh
    then <["etag" := opt_str etag]>
           (<["last_modified" := opt_str last_modified]> ∅)
    else ∅ in
  let options := get_proxy_options url in
  let options := <["request_timeout" := VInt feed_reader_request_timeout]> options in
  let* use_proxy := proxy_decision options url use_proxy in
  let* response :=
    perform (reader_read options url params use_proxy)
            (ERead url params use_proxy) in
  let need_proxy := is_need_proxy (resp_status response) in
  if negb use_proxy && has_proxy options && need_proxy then
    let* proxy_response :=
      perform (reader_read options url params true) (ERead url params true) in
    ret (if resp_ok proxy_response then proxy_response else response)
  else ret response.

(** Lines 169-215 of [sync_feed]: what is reported for the response. *)
Definition sync_feed_report (feed_id : Z) (url : Url)
    (checksum_data_base64 : string) (content_hash_base64 : option string)
    (is_refresh : bool) (response : FeedResponse) : M W unit :=
  if negb (resp_ok response) || negb (bytes_truthy (resp_content response)) then
    let st := if resp_status response =? 304 then READY else ERROR in
    _update_feed_info feed_id response (Some st) None ;;;
    ret tt
  else
  let new_hash := compute_hash_base64 (resp_content response) in
  if negb is_refresh && str_eq_ostr new_hash content_hash_base64 then
    _update_feed_info feed_id response None None ;;;
    ret tt
  else
  let* parsed :=
    try_except
      (let* raw_result :=
         (emit (ERawParse response) ;;;
          lift FeedParserError (RawFeedParser_parse response)) in
       ret (Some raw_result))
      is_parser_error
      (λ ex,
        log (LogRawParseFailed feed_id url ex) ;;;
        _update_feed_info feed_id response (Some ERROR) (Some (str_exn ex)) ;;;
        ret None) in
  match parsed with
  | None => ret tt
  | Some raw_result =>
      match raw_warnings raw_result with
      | [] => ret tt
      | _ :: _ =>
          let warnings := String.concat "; " (raw_warnings raw_result) in
          log (LogParseWarnings feed_id url warnings)
      end ;;;
      let* feed :=
        try_except
          (let* feed := _parse_found (response, raw_result)
                          (Some checksum_data_base64) is_refresh in
           ret (Some feed))
          is_invalid_or_parser_error
          (λ ex,
            log (LogInvalidFeed feed_id url ex) ;;;
            _update_feed_info feed_id response (Some ERROR) (Some (str_exn ex)) ;;;
            ret None) in
      match feed with
      | None => ret tt
      | Some feed => call (update_feed feed_id feed is_refresh) ;;; ret tt
      end
  end.

Definition sync_feed (feed_id : Z) (url : Url) (use_proxy : bool)
    (checksum_data_base64 : string) (content_hash_base64 : option string)
    (etag last_modified : option string) (is_refresh : bool) : M W unit :=
  let* response := sync_feed_read url use_proxy etag last_modified is_refresh in
  sync_feed_report feed_id url checksum_data_base64 content_hash_base64
    is_refresh response.

(** ** Story fetch *)

(** The [for i in range(2)] loop of [_fetch_story]: [iters] is what is left
    of the range, [last] the [content] and [response] bound by the previous
    iteration.  The [return] after the loop reads both. *)
Fixpoint _fetch_story_loop (options : gmap string Val) (feed_id offset : Z)
    (use_proxy : bool) (iters : list Z) (url : Url)
    (last : option (string * FeedResponse))
    : M W (Url * option string * FeedResponse) :=
  match iters with
  | [] =>
      match last with
      | Some (content, response) => ret (url, Some content, response)
      | None => raise (UnboundLocalError "content")
      end
  | _ :: iters' =>
      let* response :=
        perform (async_reader_read options url use_proxy)
                (ERead url ∅ use_proxy) in
      let url :=
        match resp_url response with
        | Some u => if str_truthy u then u else url
        | None => url
        end in
      if negb (resp_ok response && bytes_truthy (resp_content response)) then
        ret (url, None, response)
      else
      let* content :=
        try_except
          (lift UnicodeError
             (bytes_decode (resp_content response) (resp_encoding response)))
          is_unicode_error
          (λ ex,
            log (LogUnicodeError (str_exn ex) url) ;;;
            ret (bytes_decode_ignore (resp_content response) (resp_encoding response))) in
      match get_html_redirect_url content with
      | Some html_redirect =>
          if negb (str_truthy html_redirect) || bool_decide (html_redirect = url)
          then ret (url, Some content, response)
          else _fetch_story_loop options feed_id offset use_proxy iters'
                 html_redirect (Some (content, response))
      | None => ret (url, Some content, response)
      end
  end.

(** What [_fetch_story] takes from a response: the decoded body of a
    successful, non-empty response, decoded leniently when the strict
    decoding fails. *)
Definition retrieved_content (response : FeedResponse) : option string :=
  if resp_ok response && bytes_truthy (resp_content response) then
    Some (match bytes_decode (resp_content response) (resp_encoding response) with
          | inr content => content
          | inl _ =>
              bytes_decode_ignore (resp_content response) (resp_encoding response)
          end)
  else None.

Definition _fetch_story (options : gmap string Val) (feed_id offset : Z)
    (url : Url) (use_proxy : bool) : M W (Url * option string * FeedResponse) :=
  _fetch_story_loop options feed_id offset use_proxy [0; 1] url None.

(** The dict returned by [_async_fetch_story_impl]. *)
Record FetchResult : Type := mkFetchResult {
  res_url : Url;
  res_content : option string;
  res_response : FeedResponse;
}.

Definition _async_fetch_story_impl (feed_id offset : Z) (url : Url)
    (use_proxy : bool) : M W FetchResult :=
  let options := get_proxy_options url in
  let* resolved := ask (is_resolved_url url) in
  let use_proxy := if resolved then false else use_proxy in
  let options := <["request_timeout" := VInt 25]> options in
  let use_proxy := use_proxy && has_proxy options in
  let* (url, content, response) :=
    _fetch_story options feed_id offset url use_proxy in
  ret {| res_url := url; res_content := content; res_response := response |}.

(** ** Content extraction and acceptance *)

Definition _process_story_webpage (feed_id offset : Z) (url : Url)
    (text : string) (num_sub_sentences : option Z) : M W (gmap string Val) :=
  let DEFAULT_RESULT : gmap string Val :=
    <["feed_id" := VInt feed_id]>
      (<["offset" := VInt offset]> (<["url" := VStr url]> ∅)) in
  let text := str_strip text in
  if negb (str_truthy text) then ret DEFAULT_RESULT else
  let text := story_html_clean text in
  let content := story_readability text in
  let content := process_story_links content url in
  let content_info := StoryContentInfo content in
  let text_content := shorten (info_text content_info) _MAX_STORY_CONTENT_LENGTH in
  let num_sentences := Z.of_nat (length (split_sentences text_content)) in
  let* content :=
    (if _MAX_STORY_CONTENT_LENGTH <? len content then
       log (LogOnlyPlainText feed_id offset (len content) url) ;;;
       ret text_content
     else ret content) in
  let rejected :=
    match num_sub_sentences with
    | Some num_sub_sentences =>
        negb (is_fulltext_content content_info)
        && (num_sentences <=? num_sub_sentences)
    | None => false
    end in
  if rejected then ret DEFAULT_RESULT else
  let summary := shorten text_content _MAX_STORY_SUMMARY_LENGTH in
  if negb (str_truthy summary) then ret DEFAULT_RESULT else
  let result : gmap string Val :=
    <["content" := VStr content]>
      (<["summary" := VStr summary]>
         (<["sentence_count" := VInt num_sentences]> DEFAULT_RESULT)) in
  let* res := call (update_story result) in
  ret (<["accept" := default VNone (res !! "accept")]> result).

(** Lines 294-299 of [fetch_story]: the size ceiling on the story HTML. *)
Definition limit_story_html (feed_id offset : Z) (url : Url)
    (content : string) : M W string :=
  if _MAX_STORY_HTML_LENGTH <=? len content then
    let content := story_html_clean content in
    if _MAX_STORY_HTML_LENGTH <=? len content then
      log (LogTooLargeStory feed_id offset (len content) url) ;;;
      ret (str_prefix _MAX_STORY_HTML_LENGTH (story_html_to_text content))
    else ret content
  else ret content.

Definition fetch_story (feed_id offset : Z) (url : Url) (use_proxy : bool)
    (num_sub_sentences : option Z) : M W (gmap string Val) :=
  let* res := _async_fetch_story_impl feed_id offset url use_proxy in
  let response := res_response res in
  let DEFAULT_RESULT : gmap string Val :=
    <["feed_id" := VInt feed_id]>
      (<["offset" := VInt offset]>
         (<["url" := VStr url]>
            (<["response_status" := VInt (resp_status response)]>
               (<["use_proxy" := VBool (resp_use_proxy response)]> ∅)))) in
  match res_content res with
  | None => ret DEFAULT_RESULT
  | Some content =>
      if negb (str_truthy content) then ret DEFAULT_RESULT else
      let* content := limit_story_html feed_id offset url content in
      let* result :=
        _process_story_webpage feed_id offset url content num_sub_sentences in
      (* result.update(DEFAULT_RESULT) *)
      ret (DEFAULT_RESULT ∪ result)
  end.

End Worker.

(** ** A canned world

    Stand-ins for the collaborators, in the manner of test fakes: a small
    fixed web site, a random source that replays a list of draws, and text
    functions simple enough to evaluate. *)

Module Fake.

Definition response (st : Z) (body : string) (use_proxy : bool) : FeedResponse :=
  {| resp_status := st;
     resp_ok := bool_decide (st = 200);
     resp_content := list_byte_of_string body;
     resp_url := None;
     resp_etag := None;
     resp_last_modified := None;
     resp_encoding := "utf-8";
     resp_use_proxy := use_proxy |}.

Definition site (url : Url) (use_proxy : bool) : FeedResponse :=
  if bool_decide (url = "http://unchanged.example/feed") then
    response 304 "" use_proxy
  else if bool_decide (url = "http://down.example/feed") then
    response 503 "" use_proxy
  else if String.prefix "http://hop.example/" url then
    response 200 ("goto " +:+ url +:+ "+") use_proxy
  else response 200 ("<p>" +:+ url +:+ ".</p>") use_proxy.

Definition tagged : Url := "http://tagged.example/feed".
Definition resolved : Url := "http://resolved.example/feed".

Definition world : World (list Q) :=
  {| get_proxy_options := λ _, ∅;
     is_use_proxy_url := λ u, bool_decide (u = tagged);
     is_resolved_url := λ u _, bool_decide (u = tagged) || bool_decide (u = resolved);
     feed_reader_request_timeout := 30;
     has_proxy := λ _, true;
     reader_read := λ _ u _ p w, (site u p, w);
     async_reader_read := λ _ u p w, (site u p, w);
     finder_find := λ _ u p w,
       if bool_decide (u = "http://blog.example/")
       then ((["found http://blog.example/feed"],
              Some (site "http://blog.example/feed" p,
                    {| raw_storys := []; raw_warnings := [] |})), w)
       else ((["not found"], None), w);
     is_need_proxy := λ st, bool_decide (st = 403);
     random_random := λ w, match w with r :: w' => (r, w') | [] => (0%Q, []) end;
     timezone_now := λ _, 1700000000;
     service_call := λ _ w, (<["accept" := VStr "ACCEPT"]> ∅, w) |}.

Definition story_of_entry (data : gmap string Val) (now : Z) : Story :=
  {| story_unique_id :=
       match data !! "ident" with Some (VStr s) => s | _ => "" end;
     story_title :=
       match data !! "title" with Some (VStr s) => Some s | _ => None end;
     story_link :=
       match data !! "url" with Some (VStr s) => Some s | _ => None end;
     story_dt_published :=
       match data !! "dt_published" with Some (VInt z) => z | _ => now end;
     story_summary := None;
     story_content := None |}.

Definition feedlib : FeedLib :=
  {| Checksum := list string;
     compute_hash_base64 := string_of_list_byte;
     UrlsafeBase64_decode := fmap list_byte_of_string;
     UrlsafeBase64_encode := string_of_list_byte;
     FeedChecksum_load := λ b, [string_of_list_byte b];
     FeedChecksum_dump := λ c limit,
       list_byte_of_string (String.concat "," (take (Z.to_nat limit) c));
     RawFeedParser_parse := λ r,
       if String.prefix "<" (string_of_list_byte (resp_content r))
       then inr {| raw_storys := []; raw_warnings := [] |}
       else inl "not a feed";
     FeedParser_parse := λ c raw,
       inr {| result_feed :=
                {| info_title := Some "A feed"; info_home_url := None;
                   info_author_name := None; info_icon_url := None;
                   info_description := None; info_dt_updated := None;
                   info_version := None |};
              result_storys := raw_storys raw;
              result_checksum := [] |};
     get_story_of_feed_entry := story_of_entry;
     _validate_feed := λ f,
       if ostr_truthy (feed_title f) then inr f
       else inl {| args0 := "title: required"; args_rest := [] |};
     _validate_story := λ s,
       if ostr_truthy (story_link s) then inr s
       else inl {| args0 := "link: required"; args_rest := [] |};
     str_exn := λ e,
       match e with
       | ExInvalid i => args0 i
       | FeedParserError m | UnicodeError m | UnboundLocalError m => m
       end |}.

(** Sentences end with a full stop. *)
Fixpoint split_dots (cur : string) (s : string) : list string :=
  match s with
  | EmptyString => match cur with EmptyString => [] | _ => [cur] end
  | String c s' =>
      if bool_decide (c = "."%char) then cur :: split_dots "" s'
      else split_dots (cur +:+ String c "") s'
  end.

Definition extractor : Extractor :=
  {| ContentInfo := string;
     str_strip := λ s, s;
     story_html_clean := λ s, s;
     story_html_to_text := λ s, s;
     story_readability := λ s, s;
     process_story_links := λ s _, s;
     StoryContentInfo := λ s, s;
     info_text := λ s, s;
     is_fulltext_content := String.prefix "<article>";
     shorten := λ s width, str_prefix width s;
     split_sentences := split_dots "";
     get_html_redirect_url := λ s,
       if String.prefix "goto " s
       then Some (String.substring 5 (String.length s - 5) s) else None;
     bytes_decode := λ b _, inr (string_of_list_byte b);
     bytes_decode_ignore := λ b _, string_of_list_byte b |}.

(** A feed of three stories, the second of which has no link. *)
Definition three_storys : list Story :=
  [ {| story_unique_id := "a"; story_title := Some "First";
       story_link := Some "http://blog.example/1"; story_dt_published := 30;
       story_summary := None; story_content := None |};
    {| story_unique_id := "b"; story_title := Some "No link";
       story_link := None; story_dt_published := 20;
       story_summary := None; story_content := None |};
    {| story_unique_id := "c"; story_title := Some "Third";
       story_link := Some "http://blog.example/3"; story_dt_published := 10;
       story_summary := None; story_content := None |} ].

Definition blog_feed (feed_title : option string) : Feed :=
  {| feed_use_proxy := false; feed_url := Some "http://blog.example/feed";
     feed_content_length := 0; feed_content_hash_base64 := "";
     feed_etag := None; feed_last_modified := None; feed_encoding := "utf-8";
     feed_response_status := 200; feed_title := feed_title;
     feed_link := None; feed_author := None; feed_icon := None;
     feed_description := None; feed_dt_updated := None; feed_version := None;
     feed_storys := three_storys; feed_checksum_data_base64 := "";
     feed_warnings := None |}.

(** The same extractor, with an HTML cleanup that empties whatever it is
    given. *)
Definition emptying_extractor : Extractor :=
  {| ContentInfo := string;
     str_strip := λ s, s;
     story_html_clean := λ _, "";
     story_html_to_text := λ s, s;
     story_readability := λ s, s;
     process_story_links := λ s _, s;
     StoryContentInfo := λ s, s;
     info_text := λ s, s;
     is_fulltext_content := String.prefix "<article>";
     shorten := λ s width, str_prefix width s;
     split_sentences := split_dots "";
     get_html_redirect_url := λ _, None;
     bytes_decode := λ b _, inr (string_of_list_byte b);
     bytes_decode_ignore := λ b _, string_of_list_byte b |}.

End Fake.

(** ** Further views of a trace and of the fetch loop *)

(** The transport reads of a trace with all they were asked for: URL,
    keyword parameters and proxy flag. *)
Definition read_requests (t : list Event) : list (Url * gmap string Val * bool) :=
  omap (λ e, match e with ERead u p b _ => Some (u, p, b) | _ => None end) t.

(** Lines 223-224 of [_fetch_story]: the URL the loop goes on with after a
    read. *)
Definition url_after_read (url : Url) (response : FeedResponse) : Url :=
  match resp_url response with
  | Some u => if str_truthy u then u else url
  | None => url
  end.

(** Lines 144-146 of [sync_feed]: the keyword parameters of the reads. *)
Definition read_params (etag last_modified : option string) (is_refresh : bool)
    : gmap string Val :=
  if negb is_refresh
  then <["etag" := opt_str etag]> (<["last_modified" := opt_str last_modified]> ∅)
  else ∅.

Section FetchLoopViews.
Context `{!FeedLib} `{!Extractor}.

(** Lines 230-234 of [_fetch_story]: what decoding the body of a response
    logs, namely a warning when the strict decoding fails. *)
Definition decode_log (url : Url) (response : FeedResponse) : list Event :=
  match bytes_decode (resp_content response) (resp_encoding response) with
  | inr _ => []
  | inl msg => [ELog (LogUnicodeError (str_exn (UnicodeError msg)) url)]
  end.

(** Lines 235-237 of [_fetch_story]: the redirect the loop follows from a
    page, if any: a non-empty hint that differs from the page's URL. *)
Definition redirect_to_follow (url : Url) (content : string) : option Url :=
  match get_html_redirect_url content with
  | Some html_redirect =>
      if negb (str_truthy html_redirect) || bool_decide (html_redirect = url)
      then None else Some html_redirect
  | None => None
  end.

End FetchLoopViews.

(** * The feed views of the API: [rssant_api/views/feed.py]

    The views that import feeds hand the created feed creations on to the
    worker's [find_feed]; [feed_query] is the read side.  The storage
    models, the permission helpers and the service client are
    collaborators, as for the worker. *)

Module Api.

Definition MAX_GROUP_NAME_LENGTH : Z := 50.

(** [l[:n]] on a list, for any integer [n]. *)
Definition py_take {A} (n : Z) (l : list A) : list A :=
  if 0 <=? n then take (Z.to_nat n) l
  else take (length l - Z.to_nat (- n)) l.

(** Truthiness of a flat value. *)
Definition val_truthy (v : Val) : bool :=
  match v with
  | VNone => false
  | VBool b => b
  | VInt z => negb (z =? 0)
  | VStr s => str_truthy s
  | VObj _ => true
  end.

(** A feed union id: the user and the feed. *)
Record UnionId : Type := mkUnionId {
  union_user_id : Z;
  union_feed_id : Z;
}.

Record Hint : Type := mkHint {
  hint_id : UnionId;
  hint_dt_updated : Z;
}.

(** An uploaded file: its name and what [read()] gives, text or bytes. *)
Record UploadedFile : Type := mkUploadedFile {
  file_name : string;
  file_read : string + bytes;
}.

Record Request : Type := mkRequest {
  request_user_id : Z;
  request_FILES : gmap string UploadedFile;
  request_GET : gmap string string;
}.

Record FeedImportItem : Type := mkFeedImportItem {
  item_url : Val;
  item_title : Val;
  item_group : Val;
}.

(** [dict(feed_creation_id=..., url=...)] *)
Record FindFeedItem : Type := mkFindFeedItem {
  find_feed_creation_id : Z;
  find_url : Url;
}.

(** The result of [UnionFeed.create_by_imports]. *)
Record ImportOutcome (F C : Type) : Type := mkImportOutcome {
  outcome_total : Z;
  created_feeds : list F;
  existed_feeds : list F;
  feed_creations : list C;
}.

Arguments outcome_total {F C} _.
Arguments created_feeds {F C} _.
Arguments existed_feeds {F C} _.
Arguments feed_creations {F C} _.

(** The dict returned by [_create_feeds_by_imports]. *)
Record ImportResult : Type := mkImportResult {
  import_total : Z;
  num_created_feeds : Z;
  num_existed_feeds : Z;
  num_feed_creations : Z;
  first_existed_feed : option (gmap string Val);
  import_created_feeds : list (gmap string Val);
  import_feed_creations : list (gmap string Val);
}.

(** The dict returned by [feed_query]. *)
Record QueryResult : Type := mkQueryResult {
  query_total : Z;
  query_size : Z;
  query_feeds : list (gmap string Val);
  query_deleted_size : Z;
  query_deleted_ids : list UnionId;
}.

(** What a view returns: its data, or [Response({"message": ...}, status)]. *)
Inductive ViewResult (A : Type) : Type :=
  | Data (a : A)
  | ErrorResponse (message : string) (status : Z).

Arguments Data {A} _.
Arguments ErrorResponse {A} _ _.

(** [Raised] stands for the exceptions of the collaborators. *)
Inductive Exn : Type :=
  | RssantAPIException (msg : string)
  | KeyError (key : string)
  | Raised (what : string).

Inductive Event : Type :=
  | ECheckUnionid (user_id : Z) (ids : list UnionId)
  | EQueryByUser (user_id : Z) (hints : option (list Hint)) (detail : Val)
      (only_publish : bool)
  | ECreateByImports (user_id : Z) (imports : list FeedImportItem)
  | EBatchFindFeed (items : list FindFeedItem).

(** The views run in the same kind of monad as the worker. *)
Section Monad.
Context {W : Type}.

Definition M (A : Type) : Type := W → (Exn + A) * list Event * W.

Definition ret {A} (a : A) : M A := λ w, (inr a, [], w).

Definition bind {A B} (c : M A) (k : A → M B) : M B := λ w,
  match c w with
  | (inl e, t, w1) => (inl e, t, w1)
  | (inr a, t, w1) =>
      match k a w1 with (r, t2, w2) => (r, t ++ t2, w2) end
  end.

Definition raise {A} (e : Exn) : M A := λ w, (inl e, [], w).

Definition perform {A} (f : W → A * W) (ev : Event) : M A := λ w,
  match f w with (a, w1) => (inr a, [ev], w1) end.

(** A pure function that may raise, recorded as the event [ev]. *)
Definition check (r : string + unit) (ev : Event) : M unit := λ w,
  match r with
  | inl what => (inl (Raised what), [ev], w)
  | inr _ => (inr tt, [ev], w)
  end.

Definition lift {A} (r : Exn + A) : M A := λ w, (r, [], w).
End Monad.

Arguments M : clear implicits.

Notation "'let+' p := c 'in' k" := (bind c (λ p, k))
  (at level 10, p pattern, c at level 200, k at level 200,
   format "'[v' 'let+'  p  :=  c  'in'  '/' k ']'").

Class Backend (W : Type) : Type := {
  MAX_FEED_COUNT : Z;
  UnionFeedT : Type;
  FeedCreationT : Type;
  (* [x.to_dict()] *)
  feed_to_dict : UnionFeedT → gmap string Val;
  creation_to_dict : FeedCreationT → gmap string Val;
  creation_id : FeedCreationT → Z;
  creation_url : FeedCreationT → Url;
  (* the user id of [require_publish_user(request)], unless it raises *)
  require_publish_user : Request → string + Z;
  is_only_publish : Request → bool;
  check_unionid : Z → list UnionId → string + unit;
  query_by_user :
    Z → option (list Hint) → Val → bool → W →
    (Z * list UnionFeedT * list UnionId) * W;
  create_by_imports :
    list FeedImportItem → Z → W → ImportOutcome UnionFeedT FeedCreationT * W;
  (* [API_SERVICE.batch_find_feed(items)] *)
  batch_find_feed : list FindFeedItem → W → W;
  import_feed_from_text : string → list (gmap string Val);
  group_id_of : Val → Val;
  (* the truth value of an uploaded file object *)
  file_truthy : UploadedFile → bool;
  (* [data.decode('utf-8')], [None] for [UnicodeError] *)
  utf8_decode : bytes → option string;
}.

Section Views.
Context {W : Type} `{!Backend W}.

Definition feed_query (request : Request) (hints : option (list Hint))
    (detail : Val) : M W QueryResult :=
  let+ user := lift (sum_map Raised id (require_publish_user request)) in
  let+ hints :=
    match hints with
    | Some ((_ :: _) as given) =>
        let hints := py_take MAX_FEED_COUNT given in
        let ids := hint_id <$> hints in
        let+ _ := check (check_unionid user ids) (ECheckUnionid user ids) in
        ret (Some hints)
    | _ => ret hints
    end in
  let only_publish := is_only_publish request in
  let+ (total, feeds, deleted_ids) :=
    perform (query_by_user user hints detail only_publish)
            (EQueryByUser user hints detail only_publish) in
  let feeds := feed_to_dict <$> feeds in
  ret {| query_total := total;
         query_size := Z.of_nat (length feeds);
         query_feeds := feeds;
         query_deleted_size := Z.of_nat (length deleted_ids);
         query_deleted_ids := deleted_ids |}.

Definition _read_request_file (request : Request) (name : string)
    : Exn + (string * string) :=
  match request_FILES request !! name with
  | None => inl (RssantAPIException "file not received")
  | Some fileobj =>
      if negb (file_truthy fileobj)
      then inl (RssantAPIException "file not received")
      else
        match file_read fileobj with
        | inl text => inr (text, file_name fileobj)
        | inr data =>
            match utf8_decode data with
            | Some text => inr (text, file_name fileobj)
            | None => inl (RssantAPIException "file type or encoding invalid")
            end
        end
  end.

(** The first loop of [_create_feeds_by_imports]: [import_items] is the
    list built so far. *)
Fixpoint import_items_of (group : option string)
    (imports : list (gmap string Val)) (import_items : list FeedImportItem)
    : Exn + list FeedImportItem :=
  match imports with
  | [] => inr import_items
  | raw_item :: imports' =>
      let item_group := opt_str group in
      let item_group :=
        if negb (val_truthy item_group)
        then default VNone (raw_item !! "group") else item_group in
      let item_group := group_id_of item_group in
      let title := default VNone (raw_item !! "title") in
      match raw_item !! "url" with
      | None => inl (KeyError "url")
      | Some url =>
          let item := {| item_url := url; item_title := title;
                         item_group := item_group |} in
          import_items_of group imports' (import_items ++ [item])
      end
  end.

Definition _create_feeds_by_imports (user_id : Z)
    (imports : list (gmap string Val)) (group : option string)
    (is_from_bookmark : bool) : M W ImportResult :=
  let+ import_items := lift (import_items_of group imports []) in
  let+ result :=
    perform (create_by_imports import_items user_id)
            (ECreateByImports user_id import_items) in
  let find_feed_item_s :=
    (λ feed_creation,
       {| find_feed_creation_id := creation_id feed_creation;
          find_url := creation_url feed_creation |})
      <$> feed_creations result in
  let+ _ :=
    perform (λ w, (tt, batch_find_feed find_feed_item_s w))
            (EBatchFindFeed find_feed_item_s) in
  let first_existed_feed :=
    match existed_feeds result with
    | [] => None
    | first :: _ => Some (feed_to_dict first)
    end in
  ret {| import_total := outcome_total result;
         num_created_feeds := Z.of_nat (length (created_feeds result));
         num_existed_feeds := Z.of_nat (length (existed_feeds result));
         num_feed_creations := Z.of_nat (length (feed_creations result));
         first_existed_feed := first_existed_feed;
         import_created_feeds := feed_to_dict <$> created_feeds result;
         import_feed_creations := creation_to_dict <$> feed_creations result |}.

Definition feed_import (request : Request) (text : string)
    (group : option string) : M W (ViewResult ImportResult) :=
  let import_feeds := import_feed_from_text text in
  if MAX_FEED_COUNT <? Z.of_nat (length import_feeds) then
    ret (ErrorResponse "订阅数超过限制" 400)
  else
    let is_from_bookmark := 100 <? Z.of_nat (length import_feeds) in
    let+ result :=
      _create_feeds_by_imports (request_user_id request) import_feeds group
        is_from_bookmark in
    ret (Data result).

Definition feed_import_file (request : Request) : M W (ViewResult ImportResult) :=
  let+ (text, filename) := lift (_read_request_file request "file") in
  let group := request_GET request !! "group" in
  if ostr_truthy group
     && (MAX_GROUP_NAME_LENGTH <? len (default "" group)) then
    raise (RssantAPIException "group name length must <= 50")
  else feed_import request text group.

Definition feed_import_opml (request : Request) : M W (ViewResult ImportResult) :=
  feed_import_file request.

Definition feed_import_bookmark (request : Request) : M W (ViewResult ImportResult) :=
  feed_import_file request.

End Views.

(** A canned backend: every import becomes a feed creation numbered from
    100, nothing exists beforehand; the world logs the creations handed to
    the worker; only ASCII bytes decode. *)
Definition fake_backend : Backend (list FindFeedItem) :=
  {| MAX_FEED_COUNT := 2;
     UnionFeedT := gmap string Val;
     FeedCreationT := Z * Url;
     feed_to_dict := λ d, d;
     creation_to_dict := λ c, <["id" := VInt c.1]> (<["url" := VStr c.2]> ∅);
     creation_id := fst;
     creation_url := snd;
     require_publish_user := λ r,
       if request_user_id r =? 0 then inl "not logged in" else inr (request_user_id r);
     is_only_publish := λ _, false;
     check_unionid := λ user ids,
       if forallb (λ i, union_user_id i =? user) ids then inr tt
       else inl "forbidden";
     query_by_user := λ user hints _ _ w,
       ((Z.of_nat (length (default [] hints)), [], []), w);
     create_by_imports := λ items user w,
       ({| outcome_total := Z.of_nat (length items);
           created_feeds := [];
           existed_feeds := [];
           feed_creations :=
             imap (λ i item, (100 + Z.of_nat i,
                              match item_url item with VStr u => u | _ => "" end))
                  items |}, w);
     batch_find_feed := λ items w, w ++ items;
     import_feed_from_text := λ text,
       (λ line, <["url" := VStr line]> ∅) <$> Fake.split_dots "" text;
     group_id_of := λ v, v;
     file_truthy := λ f, str_truthy (file_name f);
     utf8_decode := λ b,
       if forallb (λ x, (Byte.to_N x <? 128)%N) b
       then Some (string_of_list_byte b) else None |}.

End Api.

(** * Properties *)

(** ** Strings *)

Lemma len_nonneg s : 0 ≤ len s.
Proof. unfold len. lia. Qed.

Lemma length_app_string s1 s2 :
  String.length (s1 +:+ s2) = (String.length s1 + String.length s2)%nat.
Proof. induction s1 as [|c s1 IH]; simpl; [done|]. by rewrite IH. Qed.

Lemma len_app s1 s2 : len (s1 +:+ s2) = len s1 + len s2.
Proof. unfold len. rewrite length_app_string. lia. Qed.

Lemma len_str_mul s n : len (str_mul s n) = Z.pos n * len s.
Proof.
  induction n as [n IH|n IH|]; simpl str_mul; rewrite ?len_app, ?IH; lia.
Qed.

Lemma len_str_prefix n s : 0 ≤ n → len (str_prefix n s) ≤ n.
Proof.
  revert n. induction s as [|c s IH]; intros n Hn; simpl.
  - exact Hn.
  - destruct (Z.ltb_spec 0 n) as [Hpos|Hneg]; [|exact Hn].
    specialize (IH (n - 1)). unfold len in *.
    change (String.length (String c (str_prefix (n - 1) s)))
      with (S (String.length (str_prefix (n - 1) s))).
    lia.
Qed.

Lemma len_str_prefix_full n s : 0 ≤ n ≤ len s → len (str_prefix n s) = n.
Proof.
  revert n. induction s as [|c s IH]; intros n Hn; simpl.
  - unfold len in *. simpl in *. lia.
  - destruct (Z.ltb_spec 0 n) as [Hpos|Hneg].
    + specialize (IH (n - 1)). unfold len in *.
      change (String.length (String c (str_prefix (n - 1) s)))
        with (S (String.length (str_prefix (n - 1) s))).
      change (String.length (String c s)) with (S (String.length s)) in Hn.
      lia.
    + unfold len in *. simpl. lia.
Qed.

Lemma str_truthy_len s : 0 < len s → str_truthy s = true.
Proof. destruct s; [unfold len; simpl; lia | done]. Qed.

(** ** The monad *)

Section MonadFacts.
Context {W : Type}.

Lemma omap_cons {A B} (f : A → option B) (x : A) (l : list A) :
  omap f (x :: l) = match f x with Some y => y :: omap f l | None => omap f l end.
Proof. reflexivity. Qed.

Lemma sink_calls_app t1 t2 : sink_calls (t1 ++ t2) = sink_calls t1 ++ sink_calls t2.
Proof. unfold sink_calls. apply omap_app. Qed.

Lemma reads_app t1 t2 : reads (t1 ++ t2) = reads t1 ++ reads t2.
Proof. unfold reads. apply omap_app. Qed.

End MonadFacts.

(** ** Story ordering *)

Section PySortedFacts.
Context {A : Type} (key : A → Z).

Lemma insert_reverse_perm x l : insert_reverse key x l ≡ₚ x :: l.
Proof.
  induction l as [|y l IH]; simpl; [done|].
  destruct (key y <=? key x); [done|].
  rewrite IH. apply Permutation_swap.
Qed.

Lemma sorted_reverse_perm l : sorted_reverse key l ≡ₚ l.
Proof.
  induction l as [|x l IH]; simpl; [done|].
  rewrite insert_reverse_perm. by f_equiv.
Qed.

Lemma insert_reverse_sorted x l :
  StronglySorted (key_ge key) l → StronglySorted (key_ge key) (insert_reverse key x l).
Proof.
  induction 1 as [|y l Hl IH Hy]; simpl.
  - repeat constructor.
  - destruct (Z.leb_spec (key y) (key x)) as [Hle|Hgt].
    + constructor; [by constructor|].
      constructor; [done|].
      eapply Forall_impl; [exact Hy|]. unfold key_ge in *. intros z Hz. lia.
    + constructor; [done|].
      rewrite insert_reverse_perm. constructor; [|done].
      unfold key_ge in *. lia.
Qed.

Lemma sorted_reverse_sorted l : StronglySorted (key_ge key) (sorted_reverse key l).
Proof.
  induction l as [|x l IH]; simpl; [constructor|].
  by apply insert_reverse_sorted.
Qed.

End PySortedFacts.

Section WorkerFacts.
Context {W : Type} `{!World W} `{!FeedLib} `{!Extractor}.

#[local] Arguments _parse_found : simpl never.
#[local] Arguments validate_feed : simpl never.

(** C5: whatever the order of the raw entries, [_get_storys] returns their
    stories sorted by [dt_published] in non-increasing order: every story
    is published no earlier than all the stories after it, and the result is
    a rearrangement of the converted entries. *)
Theorem get_storys_descending (entries : list (gmap string Val)) (w : W) :
  ∃ storys,
    _get_storys entries w = (inr storys, [], w)
    ∧ StronglySorted (key_ge story_dt_published) storys
    ∧ Sorted (key_ge story_dt_published) storys
    ∧ storys ≡ₚ (λ data, get_story_of_feed_entry data (timezone_now w)) <$> entries.
Proof.
  eexists. split; [reflexivity|].
  split; [apply sorted_reverse_sorted|].
  split; [apply StronglySorted_Sorted, sorted_reverse_sorted|].
  apply sorted_reverse_perm.
Qed.

(** ** Validation *)

Lemma validate_storys_run feed_info todo storys (w : W) :
  validate_storys feed_info todo storys w
  = (inr (storys ++ omap valid_story todo),
     omap (invalid_story_log feed_info) todo, w).
Proof.
  revert storys. induction todo as [|story todo IH]; intros storys; simpl.
  - by rewrite app_nil_r.
  - unfold valid_story, invalid_story_log.
    destruct (_validate_story story) as [ex|story'].
    + unfold bind, log, emit. rewrite IH. reflexivity.
    + rewrite IH, <- app_assoc. reflexivity.
Qed.

Lemma valid_invalid_length feed_info (l : list Story) :
  (length (omap valid_story l) + length (omap (invalid_story_log feed_info) l)
   = length l)%nat.
Proof.
  induction l as [|story l IH]; [done|].
  rewrite !omap_cons. unfold valid_story at 1. unfold invalid_story_log at 1.
  destruct (_validate_story story); simpl; lia.
Qed.

Lemma invalid_story_log_quiet feed_info (l : list Story) :
  sink_calls (omap (invalid_story_log feed_info) l) = []
  ∧ reads (omap (invalid_story_log feed_info) l) = []
  ∧ Forall (λ e, is_parse_event e = false) (omap (invalid_story_log feed_info) l).
Proof.
  induction l as [|story l (IH1 & IH2 & IH3)].
  { repeat split. constructor. }
  rewrite omap_cons.
  destruct (invalid_story_log feed_info story) as [e|] eqn:He; [|done].
  unfold invalid_story_log in He.
  destruct (_validate_story story); simplify_eq.
  repeat split; try done. by constructor.
Qed.

(** C4: [validate_feed] isolates story-level failures.  When the feed
    itself validates, the result is the validated feed data with its story
    list replaced: every other entry is as validated, and the stories of
    the returned feed are exactly the stories that pass validation, in
    their original order; each failing story is logged and dropped, so of
    N stories the kept and the logged ones add up to N.  When the feed
    itself fails validation, the [Invalid] exception is raised again with
    [", feed=<info>"] appended to its message, where [<info>] is the first
    of url, link, title that is non-empty. *)
Theorem validate_feed_isolates_storys (feed : Feed) (w : W) :
  match _validate_feed feed with
  | inr feed_data =>
      ∃ result storys logs,
        validate_feed feed w = (inr result, logs, w)
        ∧ feed_storys result = storys
        ∧ storys = omap valid_story (feed_storys feed_data)
        ∧ result
          = {| feed_use_proxy := feed_use_proxy feed_data;
               feed_url := feed_url feed_data;
               feed_content_length := feed_content_length feed_data;
               feed_content_hash_base64 := feed_content_hash_base64 feed_data;
               feed_etag := feed_etag feed_data;
               feed_last_modified := feed_last_modified feed_data;
               feed_encoding := feed_encoding feed_data;
               feed_response_status := feed_response_status feed_data;
               feed_title := feed_title feed_data;
               feed_link := feed_link feed_data;
               feed_author := feed_author feed_data;
               feed_icon := feed_icon feed_data;
               feed_description := feed_description feed_data;
               feed_dt_updated := feed_dt_updated feed_data;
               feed_version := feed_version feed_data;
               feed_storys := storys;
               feed_checksum_data_base64 := feed_checksum_data_base64 feed_data;
               feed_warnings := feed_warnings feed_data |}
        ∧ (∀ story story', story ∈ feed_storys feed_data →
             _validate_story story = inr story' → story' ∈ feed_storys result)
        ∧ (∀ story', story' ∈ feed_storys result →
             ∃ story, story ∈ feed_storys feed_data
                      ∧ _validate_story story = inr story')
        ∧ logs = omap (invalid_story_log (feed_info_of feed)) (feed_storys feed_data)
        ∧ (length (feed_storys result) + length logs
           = length (feed_storys feed_data))%nat
  | inl ex =>
      validate_feed feed w
      = (inl (ExInvalid
                {| args0 := args0 ex +:+ ", feed="
                            +:+ fmt_ostr (py_or (py_or (feed_url feed) (feed_link feed))
                                                (feed_title feed));
                   args_rest := args_rest ex |}), [], w)
  end.
Proof.
  unfold validate_feed.
  destruct (_validate_feed feed) as [ex|feed_data]; [reflexivity|].
  eexists _, (omap valid_story (feed_storys feed_data)), _. split.
  { unfold bind. rewrite validate_storys_run. simpl. rewrite app_nil_r.
    reflexivity. }
  split; [reflexivity|]. split; [reflexivity|]. split; [reflexivity|].
  split; [|split; [|split; [reflexivity|]]].
  - intros story story' Hin Hok. apply list_elem_of_omap.
    exists story. split; [done|]. unfold valid_story. by rewrite Hok.
  - intros story' Hin. apply list_elem_of_omap in Hin as (story & Hin & Hkept).
    exists story. split; [done|]. unfold valid_story in Hkept.
    destruct (_validate_story story) as [ex|kept]; [discriminate|].
    by injection Hkept as ->.
  - apply valid_invalid_length.
Qed.

(** ** Normalization *)

Lemma _get_storys_run (entries : list (gmap string Val)) (w : W) :
  ∃ storys, _get_storys entries w = (inr storys, [], w).
Proof. eexists. reflexivity. Qed.

Lemma _parse_found_run found checksum_data_base64 is_refresh (w : W) :
  ∃ res t,
    _parse_found found checksum_data_base64 is_refresh w = (res, t, w)
    ∧ sink_calls t = [] ∧ reads t = []
    ∧ match res with
      | inl ex => is_invalid_or_parser_error ex = true
      | inr _ => True
      end.
Proof.
  destruct found as [response raw_result]. unfold _parse_found.
  set (checksum := match UrlsafeBase64_decode checksum_data_base64 with
                   | Some data => _ | None => None end).
  unfold bind at 1. unfold emit at 1. unfold bind at 1, lift.
  destruct (FeedParser_parse checksum raw_result) as [msg|result].
  { eexists _, _. split; [reflexivity|]. by repeat split. }
  unfold bind at 1. unfold _get_storys at 1. unfold bind at 1, ask, ret.
  unfold validate_feed.
  match goal with |- context [_validate_feed ?f] =>
    destruct (_validate_feed f) as [ex|feed_data] end.
  { eexists _, _. split; [reflexivity|]. by repeat split. }
  unfold bind. rewrite validate_storys_run.
  eexists _, _. split; [reflexivity|].
  destruct (invalid_story_log_quiet
              (feed_info_of
                 {| feed_use_proxy := resp_use_proxy response;
                    feed_url := resp_url response;
                    feed_content_length := blen (resp_content response);
                    feed_content_hash_base64 :=
                      compute_hash_base64 (resp_content response);
                    feed_etag := resp_etag response;
                    feed_last_modified := resp_last_modified response;
                    feed_encoding := resp_encoding response;
                    feed_response_status := resp_status response;
                    feed_title := info_title (result_feed result);
                    feed_link := info_home_url (result_feed result);
                    feed_author := info_author_name (result_feed result);
                    feed_icon := info_icon_url (result_feed result);
                    feed_description := info_description (result_feed result);
                    feed_dt_updated := info_dt_updated (result_feed result);
                    feed_version := info_version (result_feed result);
                    feed_storys :=
                      sorted_reverse story_dt_published
                        ((λ data, get_story_of_feed_entry data (timezone_now w))
                           <$> result_storys result);
                    feed_checksum_data_base64 :=
                      UrlsafeBase64_encode
                        (FeedChecksum_dump (result_checksum result) 300);
                    feed_warnings := join_warnings (raw_warnings raw_result) |})
              (feed_storys feed_data)) as (Hs & Hr & _).
  simpl. rewrite !app_nil_r. simpl. by rewrite Hs, Hr.
Qed.

(** ** Feed synchronization *)

Lemma proxy_decision_run options url use_proxy (w : W) :
  ∃ t w1,
    proxy_decision options url use_proxy w
    = (inr (if is_use_proxy_url url then true
            else if is_resolved_url url w then false
            else has_proxy options && use_proxy
                 && negb (Qltb (random_random w).1 switch_prob)), t, w1)
    ∧ reads t = [] ∧ sink_calls t = []
    ∧ Forall (λ e, is_parse_event e = false) t.
Proof.
  unfold proxy_decision, bind, ask, perform, ret.
  destruct (is_resolved_url url w), (has_proxy options), use_proxy; simpl;
    try (destruct (random_random w) as [r w1]; simpl;
         destruct (Qltb r switch_prob); simpl);
    destruct (is_use_proxy_url url);
    (eexists _, _; split; [reflexivity|]); repeat split; repeat constructor.
Qed.

Lemma sync_feed_read_run url use_proxy etag last_modified is_refresh (w : W) :
  let options :=
    <["request_timeout" := VInt feed_reader_request_timeout]> (get_proxy_options url) in
  ∃ response flag first rest t w1,
    sync_feed_read url use_proxy etag last_modified is_refresh w = (inr response, t, w1)
    ∧ reads t = (flag, first) :: rest
    ∧ flag = (if is_use_proxy_url url then true
              else if is_resolved_url url w then false
              else has_proxy options && use_proxy
                   && negb (Qltb (random_random w).1 switch_prob))
    ∧ (rest = []
       ∨ flag = false ∧ has_proxy options = true
         ∧ is_need_proxy (resp_status first) = true
         ∧ ∃ proxy_response, rest = [(true, proxy_response)])
    ∧ sink_calls t = []
    ∧ Forall (λ e, is_parse_event e = false) t.
Proof.
  intros options. unfold sync_feed_read. fold options.
  set (params := if negb is_refresh then _ else _).
  destruct (proxy_decision_run options url use_proxy w)
    as (t0 & w0 & Hdec & Hr0 & Hc0 & Hp0).
  set (flag := if is_use_proxy_url url then _ else _) in *.
  unfold bind at 1. rewrite Hdec.
  unfold bind, perform, ret.
  destruct (reader_read options url params flag w0) as [first w1].
  destruct (negb flag && has_proxy options && is_need_proxy (resp_status first))
    eqn:Hretry.
  - destruct (reader_read options url params true w1) as [proxy_response w2].
    apply andb_true_iff in Hretry as [Hretry Hneed].
    apply andb_true_iff in Hretry as [Hflag Hproxy].
    apply negb_true_iff in Hflag.
    eexists _, flag, first, _, _, _. split; [reflexivity|].
    rewrite !reads_app, !sink_calls_app, Hr0, Hc0. simpl.
    split; [reflexivity|]. split; [reflexivity|].
    split; [right; eauto|]. split; [reflexivity|].
    apply Forall_app. split; [done|]. repeat constructor.
  - eexists _, flag, first, _, _, _. split; [reflexivity|].
    rewrite !reads_app, !sink_calls_app, Hr0, Hc0. simpl.
    split; [reflexivity|]. split; [reflexivity|].
    split; [by left|]. split; [reflexivity|].
    apply Forall_app. split; [done|]. repeat constructor.
Qed.

Lemma sync_feed_report_run (feed_id : Z) (url : Url)
    (checksum_data_base64 : string) (content_hash_base64 : option string)
    (is_refresh : bool) (response : FeedResponse) (w : W) :
  ∃ t w' c,
    sync_feed_report feed_id url checksum_data_base64 content_hash_base64
      is_refresh response w = (inr tt, t, w')
    ∧ reads t = []
    ∧ sink_calls t = [c].
Proof.
  unfold sync_feed_report.
  destruct (negb (resp_ok response) || negb (bytes_truthy (resp_content response))).
  { unfold bind, _update_feed_info, call, perform, ret.
    destruct (service_call _ w) as [res w']. by eexists _, _, _. }
  destruct (negb is_refresh && _).
  { unfold bind, _update_feed_info, call, perform, ret.
    destruct (service_call _ w) as [res w']. by eexists _, _, _. }
  unfold bind at 1. unfold try_except at 1. unfold bind at 1 2. unfold emit, lift.
  destruct (RawFeedParser_parse response) as [msg|raw_result].
  { simpl. unfold bind, log, emit, _update_feed_info, call, perform, ret.
    destruct (service_call _ w) as [res w']. by eexists _, _, _. }
  simpl. unfold bind at 1.
  assert (∃ t0,
            match raw_warnings raw_result with
            | [] => ret tt
            | _ :: _ =>
                log (LogParseWarnings feed_id url
                       (String.concat "; " (raw_warnings raw_result)))
            end w = (inr tt, t0, w)
            ∧ reads t0 = [] ∧ sink_calls t0 = []) as (t0 & -> & Hreads0 & Hcalls0).
  { destruct (raw_warnings raw_result); by eexists. }
  unfold bind at 1. unfold try_except at 1. unfold bind at 1.
  destruct (_parse_found_run (response, raw_result) (Some checksum_data_base64)
              is_refresh w) as (res & t & Hrun & Hcalls & Hreads & Hres).
  rewrite Hrun. destruct res as [ex|feed].
  - rewrite Hres. unfold bind, log, emit, _update_feed_info, call, perform, ret.
    destruct (service_call _ w) as [res w'].
    eexists _, _, _. split; [reflexivity|]. simpl.
    rewrite !reads_app, !sink_calls_app, Hreads, Hcalls, Hreads0, Hcalls0. by split.
  - unfold bind, ret, call, perform.
    destruct (service_call _ w) as [res w'].
    eexists _, _, _. split; [reflexivity|]. simpl.
    rewrite !reads_app, !sink_calls_app, Hreads, Hcalls, Hreads0, Hcalls0. by split.
Qed.

(** C1: the [use_proxy] flag of the fetch issued by [sync_feed] (the first
    transport read) follows the precedence of the proxy decision: it is
    [true] for a proxy-tagged URL, else [false] for a DNS-resolved URL, else
    the caller's flag (if the reader has a proxy) unless the random draw
    falls below the switch probability of one quarter.  Hence a resolved,
    untagged URL is fetched without proxy whatever the caller's flag and
    the draw, and a tagged URL is fetched through the proxy even if it is
    resolved.  The only other read [sync_feed] may make is the single retry
    of the fetch step, through the proxy, after a fetch without proxy came
    back with a status that asks for one. *)
Theorem sync_feed_proxy_precedence (feed_id : Z) (url : Url) (use_proxy : bool)
    (checksum_data_base64 : string) (content_hash_base64 etag last_modified : option string)
    (is_refresh : bool) (w : W) :
  let options :=
    <["request_timeout" := VInt feed_reader_request_timeout]> (get_proxy_options url) in
  ∃ flag first rest,
    reads (sync_feed feed_id url use_proxy checksum_data_base64
             content_hash_base64 etag last_modified is_refresh w).1.2
    = (flag, first) :: rest
    ∧ flag = (if is_use_proxy_url url then true
              else if is_resolved_url url w then false
              else has_proxy options && use_proxy
                   && negb (Qltb (random_random w).1 switch_prob))
    ∧ (is_resolved_url url w = true → is_use_proxy_url url = false → flag = false)
    ∧ (is_use_proxy_url url = true → flag = true)
    ∧ (switch_prob == 1 # 4)%Q
    ∧ (rest = []
       ∨ flag = false ∧ has_proxy options = true
         ∧ is_need_proxy (resp_status first) = true
         ∧ ∃ proxy_response, rest = [(true, proxy_response)]).
Proof.
  intros options.
  destruct (sync_feed_read_run url use_proxy etag last_modified is_refresh w)
    as (response & flag & first & rest & t & w1 & Hrun & Hreads & Hflag & Hrest & _).
  destruct (sync_feed_report_run feed_id url checksum_data_base64
              content_hash_base64 is_refresh response w1)
    as (t2 & w2 & c & Hreport & Hreads2 & _).
  unfold sync_feed, bind. rewrite Hrun, Hreport. simpl.
  rewrite reads_app, Hreads, Hreads2, app_nil_r. exists flag, first, rest.
  split; [reflexivity|]. split; [exact Hflag|].
  split; [|split; [|split]].
  - intros Hres Htag. rewrite Hflag, Htag, Hres. reflexivity.
  - intros Htag. rewrite Hflag, Htag. reflexivity.
  - reflexivity.
  - exact Hrest.
Qed.

(** C2: when the fetch of [sync_feed] ends with a response that failed or
    has no content, the sync stops there: the only result-sink call of the
    whole invocation is one [update_feed_info] carrying the response status
    and the feed status [READY] if that status is 304 and [ERROR]
    otherwise; nothing is parsed and no [update_feed] is made. *)
Theorem sync_feed_failed_fetch_is_terminal (feed_id : Z) (url : Url)
    (use_proxy : bool) (checksum_data_base64 : string)
    (content_hash_base64 etag last_modified : option string)
    (is_refresh : bool) (w : W) response t1 w1 :
  sync_feed_read url use_proxy etag last_modified is_refresh w
  = (inr response, t1, w1) →
  resp_ok response = false ∨ resp_content response = [] →
  let st := if resp_status response =? 304 then READY else ERROR in
  let report := update_feed_info feed_id (Some st) (resp_status response) None in
  ∃ w2,
    sync_feed feed_id url use_proxy checksum_data_base64 content_hash_base64
      etag last_modified is_refresh w
    = (inr tt, t1 ++ [ECall report], w2)
    ∧ sink_calls (t1 ++ [ECall report]) = [report]
    ∧ Forall (λ e, is_parse_event e = false) (t1 ++ [ECall report]).
Proof.
  intros Hrun Hfail st report.
  destruct (sync_feed_read_run url use_proxy etag last_modified is_refresh w)
    as (response' & flag & first & rest & t' & w1' & Hrun' & _ & _ & _ & Hcalls & Hparse).
  rewrite Hrun in Hrun'. injection Hrun' as <- <- <-.
  unfold sync_feed, bind. rewrite Hrun. unfold sync_feed_report.
  assert (negb (resp_ok response) || negb (bytes_truthy (resp_content response)) = true)
    as ->.
  { destruct Hfail as [-> | ->]; [done|]. by rewrite orb_true_r. }
  unfold bind, _update_feed_info, call, perform, ret.
  destruct (service_call _ w1) as [res w2]. exists w2.
  split; [reflexivity|]. split.
  - rewrite sink_calls_app, Hcalls. reflexivity.
  - apply Forall_app. split; [done|]. by repeat constructor.
Qed.

(** C3: when [is_refresh] is false and the fetch succeeded with content
    whose hash equals the caller's prior content hash, the sync is treated
    as unchanged: the only result-sink call is one [update_feed_info] with
    no status change, nothing is parsed or diffed, and no [update_feed]
    (hence no story) is emitted.  This is what a second sync of the same
    content does, given the hash of the first. *)
Theorem sync_feed_same_hash_is_metadata_only (feed_id : Z) (url : Url)
    (use_proxy : bool) (checksum_data_base64 : string)
    (content_hash_base64 etag last_modified : option string)
    (w : W) response t1 w1 :
  sync_feed_read url use_proxy etag last_modified false w
  = (inr response, t1, w1) →
  resp_ok response = true →
  resp_content response ≠ [] →
  content_hash_base64 = Some (compute_hash_base64 (resp_content response)) →
  let report := update_feed_info feed_id None (resp_status response) None in
  ∃ w2,
    sync_feed feed_id url use_proxy checksum_data_base64 content_hash_base64
      etag last_modified false w
    = (inr tt, t1 ++ [ECall report], w2)
    ∧ sink_calls (t1 ++ [ECall report]) = [report]
    ∧ Forall (λ e, is_parse_event e = false) (t1 ++ [ECall report])
    ∧ (∀ feed r, ECall (update_feed feed_id feed r) ∉ t1 ++ [ECall report]).
Proof.
  intros Hrun Hok Hcontent -> report.
  destruct (sync_feed_read_run url use_proxy etag last_modified false w)
    as (response' & flag & first & rest & t' & w1' & Hrun' & _ & _ & _ & Hcalls & Hparse).
  rewrite Hrun in Hrun'. injection Hrun' as <- <- <-.
  unfold sync_feed, bind. rewrite Hrun. unfold sync_feed_report.
  rewrite Hok. destruct (resp_content response) as [|b content] eqn:Hc; [done|].
  simpl. rewrite bool_decide_true by done.
  unfold bind, _update_feed_info, call, perform, ret.
  destruct (service_call _ w1) as [res w2]. exists w2.
  assert (sink_calls (t1 ++ [ECall report]) = [report]) as Hsink.
  { rewrite sink_calls_app, Hcalls. reflexivity. }
  split; [reflexivity|]. split; [exact Hsink|]. split.
  - apply Forall_app. split; [done|]. by repeat constructor.
  - intros feed r Hin.
    assert (update_feed feed_id feed r ∈ sink_calls (t1 ++ [ECall report])) as Hin'.
    { unfold sink_calls. apply list_elem_of_omap. by exists (ECall (update_feed feed_id feed r)). }
    rewrite Hsink in Hin'. apply list_elem_of_singleton in Hin'. discriminate.
Qed.

(** ** Feed discovery *)

(** C9: every invocation of [find_feed] returns normally after exactly two
    result-sink calls: first the progress call
    [update_feed_creation_status] with status [UPDATING], made before the
    finder touches the network, and last one [save_feed_creation_result].
    A validation or parse failure raised while normalizing the found feed
    does not escape: its text is appended to the messages as
    ["invalid feed: ..."] and the terminal call carries no feed. *)
Theorem find_feed_two_sink_calls (feed_creation_id : Z) (url : Url) (w : W) :
  let options :=
    <["dns_service" := VObj "DNS_SERVICE"]>
      (<["request_timeout" := VInt feed_reader_request_timeout]>
         (<["message_handler" := VObj "message_handler"]> (get_proxy_options url))) in
  let progress := update_feed_creation_status feed_creation_id UPDATING in
  let w0 := (service_call progress w).2 in
  let found := finder_find options url (is_use_proxy_url url) w0 in
  ∃ t messages feed w',
    let terminal := save_feed_creation_result feed_creation_id messages feed in
    find_feed feed_creation_id url w
    = (inr tt,
       ECall progress :: EFind url (is_use_proxy_url url) :: t ++ [ECall terminal],
       w')
    ∧ sink_calls t = [] ∧ reads t = []
    ∧ sink_calls (ECall progress :: EFind url (is_use_proxy_url url)
                  :: t ++ [ECall terminal])
      = [progress; terminal]
    ∧ match found.1.2 with
      | None => feed = None ∧ messages = found.1.1
      | Some f =>
          match (_parse_found f None false found.2).1.1 with
          | inl ex =>
              feed = None
              ∧ messages = found.1.1 ++ ["invalid feed: " +:+ str_exn ex]
          | inr feed_data => feed = Some feed_data ∧ messages = found.1.1
          end
      end.
Proof.
  intros options progress w0 found. subst w0 found.
  unfold find_feed. fold options. fold progress.
  unfold bind at 1. unfold call at 1. unfold perform at 1.
  destruct (service_call progress w) as [res0 w0]. simpl.
  unfold bind at 1. unfold perform at 1.
  destruct (finder_find options url (is_use_proxy_url url) w0)
    as [[messages [f|]] w1]; simpl.
  - destruct (_parse_found_run f None false w1)
      as (res & t & Hrun & Hcalls & Hreads & Hres).
    unfold bind at 1. unfold try_except. unfold bind at 1. rewrite Hrun.
    destruct res as [ex|feed_data]; simpl.
    + rewrite Hres. unfold bind, log, emit, ret, call, perform. simpl.
      destruct (service_call _ w1) as [res1 w2].
      eexists (t ++ [ELog (LogInvalidFeedUrl url ex)]), _, _, _.
      split; [by rewrite !app_nil_r, <- !app_assoc|].
      rewrite !sink_calls_app, !reads_app, Hcalls, Hreads. simpl.
      repeat split; try done.
    + unfold bind, ret, call, perform. simpl.
      destruct (service_call _ w1) as [res1 w2].
      eexists t, _, _, _.
      split; [by rewrite !app_nil_r|].
      repeat split; try done.
      all: simpl; rewrite ?sink_calls_app, ?Hcalls; try reflexivity.
  - unfold bind, try_except, ret, call, perform. simpl.
    destruct (service_call _ w1) as [res1 w2].
    eexists [], _, _, _. split; [reflexivity|]. by repeat split.
Qed.

(** ** Story fetch *)

Lemma _fetch_story_loop_run options feed_id offset use_proxy iters url prev (w : W) :
  (iters = [] → is_Some prev) →
  (∀ c r, prev = Some (c, r) → retrieved_content r = Some c) →
  ∃ url' response t w',
    _fetch_story_loop options feed_id offset use_proxy iters url prev w
    = (inr (url', retrieved_content response, response), t, w')
    ∧ (length (reads t) ≤ length iters)%nat
    ∧ (iters ≠ [] → reads t ≠ [])
    ∧ match last (reads t) with
      | Some (p, r) => p = use_proxy ∧ r = response
      | None => ∃ c, prev = Some (c, response)
      end
    ∧ sink_calls t = [].
Proof.
  revert url prev w.
  induction iters as [|i iters IH]; intros url prev w Hbound Hprev.
  - destruct (Hbound eq_refl) as [[c r] ->]. simpl.
    exists url, r, [], w. rewrite (Hprev c r eq_refl).
    repeat split; simpl; eauto with lia.
  - simpl. unfold bind at 1. unfold perform at 1.
    destruct (async_reader_read options url use_proxy w) as [response w1].
    set (url1 := match resp_url response with
                 | Some u => if str_truthy u then u else url
                 | None => url end).
    pose proof (eq_refl : retrieved_content response = retrieved_content response) as Hc.
    unfold retrieved_content at 2 in Hc.
    destruct (resp_ok response && bytes_truthy (resp_content response)); simpl.
    2:{ exists url1, response, [ERead url ∅ use_proxy response], w1.
        rewrite Hc. repeat split; simpl; auto with lia. }
    set (content := match bytes_decode _ _ with inr c => c | inl _ => _ end) in Hc.
    set (decode_log :=
           match bytes_decode (resp_content response) (resp_encoding response) with
           | inr _ => []
           | inl msg => [ELog (LogUnicodeError (str_exn (UnicodeError msg)) url1)]
           end).
    assert (try_except
              (lift UnicodeError
                 (bytes_decode (resp_content response) (resp_encoding response)))
              is_unicode_error
              (λ ex, log (LogUnicodeError (str_exn ex) url1) ;;;
                     ret (bytes_decode_ignore (resp_content response)
                            (resp_encoding response))) w1
            = (inr content, decode_log, w1)) as Hdecode.
    { unfold try_except, lift, bind, log, emit, ret. subst content decode_log.
      destruct (bytes_decode _ _); reflexivity. }
    assert (reads decode_log = [] ∧ sink_calls decode_log = []) as [Hdr Hdc].
    { subst decode_log. by destruct (bytes_decode _ _). }
    unfold bind at 1. rewrite Hdecode.
    assert (∃ w', ret (A:=Url * option string * FeedResponse)
                    (url1, Some content, response) w1
                  = (inr (url1, retrieved_content response, response), [], w')) as Hstop.
    { exists w1. by rewrite Hc. }
    destruct (get_html_redirect_url content) as [html_redirect|].
    2:{ exists url1, response, (ERead url ∅ use_proxy response :: decode_log ++ []), w1.
        unfold ret. rewrite Hc. simpl.
        rewrite !reads_app, !sink_calls_app, Hdr, Hdc. simpl.
        repeat split; auto with lia. }
    destruct (negb (str_truthy html_redirect) || bool_decide (html_redirect = url1)).
    { exists url1, response, (ERead url ∅ use_proxy response :: decode_log ++ []), w1.
      unfold ret. rewrite Hc. simpl.
      rewrite !reads_app, !sink_calls_app, Hdr, Hdc. simpl.
      repeat split; auto with lia. }
    destruct (IH html_redirect (Some (content, response)) w1)
      as (url' & response' & t & w' & Hrun & Hlen & _ & Hlast & Hcalls).
    { by eexists. }
    { intros c r [= <- <-]. exact Hc. }
    rewrite Hrun.
    exists url', response', (ERead url ∅ use_proxy response :: decode_log ++ t), w'.
    split; [reflexivity|]. simpl.
    rewrite !reads_app, !sink_calls_app, Hdr, Hdc. simpl.
    split; [lia|]. split; [done|]. split; [|done].
    rewrite last_cons. destruct (last (reads t)) as [[p r]|]; [done|].
    destruct Hlast as (c & [= _ <-]). done.
Qed.

(** C7: the redirect loop of the story fetch is bounded.  For every story
    URL and every behaviour of the transport, [_fetch_story] returns after
    at least one and at most three transport reads (the loop body runs at
    most twice, so in fact after at most two), and it returns the response
    of the last read together with the content retrieved from that
    response. *)
Theorem fetch_story_loop_bounded options (feed_id offset : Z) (url : Url)
    (use_proxy : bool) (w : W) :
  ∃ url' content response t w',
    _fetch_story options feed_id offset url use_proxy w
    = (inr (url', content, response), t, w')
    ∧ (1 ≤ length (reads t) ≤ 3)%nat
    ∧ (length (reads t) ≤ 2)%nat
    ∧ last (reads t) = Some (use_proxy, response)
    ∧ content = retrieved_content response.
Proof.
  destruct (_fetch_story_loop_run options feed_id offset use_proxy [0; 1] url None w)
    as (url' & response & t & w' & Hrun & Hlen & Hne & Hlast & _); [done..|].
  exists url', (retrieved_content response), response, t, w'.
  split; [exact Hrun|]. simpl in Hlen.
  assert (reads t ≠ []) as Hreads by (by apply Hne).
  destruct (reads t) as [|rd rds] eqn:Hr; [done|].
  split; [simpl in *; lia|]. split; [simpl in *; lia|].
  split; [|done].
  destruct (last (rd :: rds)) as [[p r]|] eqn:Hl.
  - destruct Hlast as [-> ->]. done.
  - destruct Hlast as (c & [=]).
Qed.

Lemma _async_fetch_story_impl_run (feed_id offset : Z) (url : Url)
    (use_proxy : bool) (w : W) :
  ∃ res t w',
    _async_fetch_story_impl feed_id offset url use_proxy w = (inr res, t, w')
    ∧ sink_calls t = []
    ∧ res_content res = retrieved_content (res_response res).
Proof.
  unfold _async_fetch_story_impl, bind at 1, ask.
  set (options := <["request_timeout" := VInt 25]> (get_proxy_options url)).
  set (flag := (if is_resolved_url url w then false else use_proxy) && has_proxy options).
  destruct (_fetch_story_loop_run options feed_id offset flag [0; 1] url None w)
    as (url' & response & t & w' & Hrun & _ & _ & _ & Hcalls); [done..|].
  unfold bind, _fetch_story. rewrite Hrun. simpl.
  eexists _, _, _. split; [reflexivity|]. simpl. by rewrite app_nil_r.
Qed.

(** ** Content extraction *)

Lemma limit_story_html_run (feed_id offset : Z) (url : Url) (content : string) (w : W) :
  ∃ limited t,
    limit_story_html feed_id offset url content w = (inr limited, t, w)
    ∧ sink_calls t = []
    ∧ len limited ≤ _MAX_STORY_HTML_LENGTH
    ∧ (len content < _MAX_STORY_HTML_LENGTH → limited = content)
    ∧ (_MAX_STORY_HTML_LENGTH ≤ len content →
       len (story_html_clean content) < _MAX_STORY_HTML_LENGTH →
       limited = story_html_clean content)
    ∧ (_MAX_STORY_HTML_LENGTH ≤ len content →
       _MAX_STORY_HTML_LENGTH ≤ len (story_html_clean content) →
       limited = str_prefix _MAX_STORY_HTML_LENGTH
                   (story_html_to_text (story_html_clean content))).
Proof.
  unfold limit_story_html.
  destruct (Z.leb_spec _MAX_STORY_HTML_LENGTH (len content)) as [Hbig|Hsmall].
  - destruct (Z.leb_spec _MAX_STORY_HTML_LENGTH (len (story_html_clean content)))
      as [Hbig'|Hsmall'].
    + eexists _, _. split; [reflexivity|]. split; [reflexivity|].
      split; [apply len_str_prefix; unfold _MAX_STORY_HTML_LENGTH; lia|].
      repeat split; intros; try reflexivity; lia.
    + eexists _, _. split; [reflexivity|]. split; [reflexivity|].
      repeat split; intros; try reflexivity; lia.
  - eexists _, _. split; [reflexivity|]. split; [reflexivity|].
    repeat split; intros; try reflexivity; lia.
Qed.


Lemma _process_story_webpage_run (feed_id offset : Z) (url : Url)
    (text : string) (num_sub_sentences : option Z) (w : W) :
  let extracted :=
    process_story_links (story_readability (story_html_clean (str_strip text))) url in
  let text_content :=
    shorten (info_text (StoryContentInfo extracted)) _MAX_STORY_CONTENT_LENGTH in
  ∃ result t w',
    _process_story_webpage feed_id offset url text num_sub_sentences w
    = (inr result, t, w')
    ∧ result !! "url" = Some (VStr url)
    ∧ (∀ c, result !! "content" = Some c →
         c = VStr (if _MAX_STORY_CONTENT_LENGTH <? len extracted
                   then text_content else extracted))
    ∧ (∀ s, result !! "summary" = Some s →
         s = VStr (shorten text_content _MAX_STORY_SUMMARY_LENGTH)).
Proof.
  intros extracted text_content. unfold _process_story_webpage.
  fold extracted. fold text_content.
  destruct (negb (str_truthy (str_strip text))).
  { eexists _, _, _. split; [reflexivity|]. by simplify_map_eq. }
  set (content := if _MAX_STORY_CONTENT_LENGTH <? len extracted
                  then text_content else extracted).
  unfold bind at 1.
  assert (∃ t0,
            (if _MAX_STORY_CONTENT_LENGTH <? len extracted
             then log (LogOnlyPlainText feed_id offset (len extracted) url) ;;;
                  ret text_content
             else ret extracted) w = (inr content, t0, w)) as [t0 ->].
  { subst content. destruct (_ <? _); eexists; reflexivity. }
  destruct (match num_sub_sentences with Some _ => _ | None => false end).
  { eexists _, _, _. split; [reflexivity|]. by simplify_map_eq. }
  destruct (negb (str_truthy (shorten text_content _MAX_STORY_SUMMARY_LENGTH))).
  { eexists _, _, _. split; [reflexivity|]. by simplify_map_eq. }
  unfold bind, call, perform, ret.
  destruct (service_call _ w) as [res w'].
  eexists _, _, _. split; [reflexivity|].
  repeat split; intros; by simplify_map_eq.
Qed.

Lemma _process_story_webpage_rejected (feed_id offset : Z) (url : Url)
    (text : string) (hint : Z) (w : W) :
  let extracted :=
    process_story_links (story_readability (story_html_clean (str_strip text))) url in
  let content_info := StoryContentInfo extracted in
  let text_content := shorten (info_text content_info) _MAX_STORY_CONTENT_LENGTH in
  let num_sentences := Z.of_nat (length (split_sentences text_content)) in
  let DEFAULT_RESULT : gmap string Val :=
    <["feed_id" := VInt feed_id]>
      (<["offset" := VInt offset]> (<["url" := VStr url]> ∅)) in
  is_fulltext_content content_info = false →
  num_sentences ≤ hint →
  ∃ t,
    _process_story_webpage feed_id offset url text (Some hint) w
    = (inr DEFAULT_RESULT, t, w)
    ∧ sink_calls t = []
    ∧ DEFAULT_RESULT !! "content" = None
    ∧ DEFAULT_RESULT !! "summary" = None
    ∧ DEFAULT_RESULT !! "sentence_count" = None.
Proof.
  intros extracted content_info text_content num_sentences DEFAULT_RESULT Hfull Hnum.
  unfold _process_story_webpage.
  fold extracted. fold content_info. fold text_content. fold num_sentences.
  fold DEFAULT_RESULT.
  assert (DEFAULT_RESULT !! "content" = None
          ∧ DEFAULT_RESULT !! "summary" = None
          ∧ DEFAULT_RESULT !! "sentence_count" = None) as Hkeys.
  { subst DEFAULT_RESULT. by simplify_map_eq. }
  destruct (negb (str_truthy (str_strip text))).
  { exists []. by repeat split; try apply Hkeys. }
  rewrite Hfull. simpl negb. rewrite andb_true_l.
  assert ((num_sentences <=? hint) = true) as -> by (apply Z.leb_le; exact Hnum).
  unfold bind, log, emit, ret.
  destruct (_MAX_STORY_CONTENT_LENGTH <? len extracted);
    eexists; (split; [reflexivity|]); by repeat split; try apply Hkeys.
Qed.

(** C6: when the caller supplies a hint sentence count, the extracted
    content is not classified as full text and its sentence count does not
    exceed the hint, [_process_story_webpage] returns the content-less
    default result, whose only entries are feed id, offset and url, and
    reports nothing to the result sink; and a [fetch_story] that hands this
    text to the pipeline returns a result without content, summary and
    sentence count. *)
Theorem process_story_webpage_rejects_short (feed_id offset : Z) (url : Url)
    (text : string) (hint : Z) (w : W) :
  let extracted :=
    process_story_links (story_readability (story_html_clean (str_strip text))) url in
  let content_info := StoryContentInfo extracted in
  let text_content := shorten (info_text content_info) _MAX_STORY_CONTENT_LENGTH in
  let num_sentences := Z.of_nat (length (split_sentences text_content)) in
  let DEFAULT_RESULT : gmap string Val :=
    <["feed_id" := VInt feed_id]>
      (<["offset" := VInt offset]> (<["url" := VStr url]> ∅)) in
  is_fulltext_content content_info = false →
  num_sentences ≤ hint →
  (∃ t,
     _process_story_webpage feed_id offset url text (Some hint) w
     = (inr DEFAULT_RESULT, t, w)
     ∧ sink_calls t = []
     ∧ DEFAULT_RESULT !! "content" = None
     ∧ DEFAULT_RESULT !! "summary" = None
     ∧ DEFAULT_RESULT !! "sentence_count" = None)
  ∧ (∀ use_proxy w0 res t0 html t1,
       _async_fetch_story_impl feed_id offset url use_proxy w0 = (inr res, t0, w) →
       res_content res = Some html →
       limit_story_html feed_id offset url html w = (inr text, t1, w) →
       ∃ result t,
         fetch_story feed_id offset url use_proxy (Some hint) w0 = (inr result, t, w)
         ∧ sink_calls t = []
         ∧ result !! "content" = None
         ∧ result !! "summary" = None
         ∧ result !! "sentence_count" = None).
Proof.
  intros extracted content_info text_content num_sentences DEFAULT_RESULT Hfull Hnum.
  destruct (_process_story_webpage_rejected feed_id offset url text hint w Hfull Hnum)
    as (t & Hprocess & Hcalls & Hc & Hs & Hn).
  split; [by exists t|].
  intros use_proxy w0 res t0 html t1 Himpl Hhtml Hlimit.
  destruct (_async_fetch_story_impl_run feed_id offset url use_proxy w0)
    as (res' & t0' & w' & Himpl' & Hcalls0 & _).
  rewrite Himpl in Himpl'. injection Himpl' as <- <- <-.
  destruct (limit_story_html_run feed_id offset url html w)
    as (limited & t1' & Hlimit' & Hcalls1 & _).
  rewrite Hlimit in Hlimit'. injection Hlimit' as <- <-.
  unfold fetch_story, bind at 1. rewrite Himpl, Hhtml.
  destruct (negb (str_truthy html)).
  { eexists _, _. split; [reflexivity|].
    rewrite app_nil_r. split; [exact Hcalls0|]. by simplify_map_eq. }
  unfold bind at 1. rewrite Hlimit. unfold bind, ret. rewrite Hprocess.
  eexists _, _. split; [reflexivity|].
  rewrite !sink_calls_app, Hcalls0, Hcalls1, Hcalls.
  split; [reflexivity|].
  fold DEFAULT_RESULT in Hc, Hs, Hn.
  repeat split; apply lookup_union_None; (split; [by simplify_map_eq|assumption]).
Qed.

(** ** Size ceilings *)

(** C8 (amended): the ceilings are 5,120,000 for the story HTML, 1,024,000
    for the extracted content and 300 for the summary, all hard truncation
    points.  Content at or over the story-HTML ceiling is reduced, by the
    HTML cleanup and if that does not suffice by cutting its plain text at
    the ceiling, so that what is handed on never exceeds the ceiling.
    Extracted content over the content ceiling is replaced by the plain
    text shortened to the content ceiling, and the summary is that plain
    text shortened to 300.  So the reported content never exceeds
    1,024,000 once [shorten] keeps within that one width, and the summary
    never exceeds 300 once [shorten] keeps within that one; nothing is
    asked of [shorten] at any other width. *)
Theorem story_size_ceilings (feed_id offset : Z) (url : Url)
    (content text : string) (num_sub_sentences : option Z) (w : W) :
  (_MAX_STORY_HTML_LENGTH = 5120000
   ∧ _MAX_STORY_CONTENT_LENGTH = 1024000
   ∧ _MAX_STORY_SUMMARY_LENGTH = 300)
  ∧ (∃ limited t,
       limit_story_html feed_id offset url content w = (inr limited, t, w)
       ∧ len limited ≤ _MAX_STORY_HTML_LENGTH
       ∧ (len content < _MAX_STORY_HTML_LENGTH → limited = content)
       ∧ (_MAX_STORY_HTML_LENGTH ≤ len content →
          len (story_html_clean content) < _MAX_STORY_HTML_LENGTH →
          limited = story_html_clean content)
       ∧ (_MAX_STORY_HTML_LENGTH ≤ len content →
          _MAX_STORY_HTML_LENGTH ≤ len (story_html_clean content) →
          limited = str_prefix _MAX_STORY_HTML_LENGTH
                      (story_html_to_text (story_html_clean content))))
  ∧ (let extracted :=
       process_story_links (story_readability (story_html_clean (str_strip text))) url in
     let text_content :=
       shorten (info_text (StoryContentInfo extracted)) _MAX_STORY_CONTENT_LENGTH in
     ∃ result t w',
       _process_story_webpage feed_id offset url text num_sub_sentences w
       = (inr result, t, w')
       ∧ (∀ c, result !! "content" = Some c →
            c = VStr (if _MAX_STORY_CONTENT_LENGTH <? len extracted
                      then text_content else extracted))
       ∧ (∀ s, result !! "summary" = Some s →
            s = VStr (shorten text_content _MAX_STORY_SUMMARY_LENGTH))
       ∧ ((∀ s, len (shorten s _MAX_STORY_CONTENT_LENGTH)
                ≤ _MAX_STORY_CONTENT_LENGTH) →
          ∀ c, result !! "content" = Some (VStr c) →
               len c ≤ _MAX_STORY_CONTENT_LENGTH)
       ∧ ((∀ s, len (shorten s _MAX_STORY_SUMMARY_LENGTH)
                ≤ _MAX_STORY_SUMMARY_LENGTH) →
          ∀ s, result !! "summary" = Some (VStr s) →
               len s ≤ _MAX_STORY_SUMMARY_LENGTH)).
Proof.
  split; [by repeat split|]. split.
  - destruct (limit_story_html_run feed_id offset url content w)
      as (limited & t & Hrun & _ & Hlen & H1 & H2 & H3).
    by exists limited, t.
  - intros extracted text_content.
    destruct (_process_story_webpage_run feed_id offset url text num_sub_sentences w)
      as (result & t & w' & Hrun & _ & Hcontent & Hsummary).
    exists result, t, w'. split; [exact Hrun|].
    split; [exact Hcontent|]. split; [exact Hsummary|]. split.
    + intros Hshorten c Hc. apply Hcontent in Hc. injection Hc as ->.
      fold extracted. fold text_content.
      destruct (Z.ltb_spec _MAX_STORY_CONTENT_LENGTH (len extracted)); [|done].
      by apply Hshorten.
    + intros Hshorten s Hs. apply Hsummary in Hs. injection Hs as ->.
      by apply Hshorten.
Qed.

(** ** The reported URL *)

(** C10: the [url] entry of the result of [fetch_story] is always the URL
    the caller supplied, whatever final URL the redirect loop ended with;
    and when the result carries content, that content was extracted with
    the links rewritten against the caller's URL. *)
Theorem fetch_story_reports_input_url (feed_id offset : Z) (url : Url)
    (use_proxy : bool) (num_sub_sentences : option Z) (w : W) :
  ∃ res t0 w0 result t w',
    _async_fetch_story_impl feed_id offset url use_proxy w = (inr res, t0, w0)
    ∧ fetch_story feed_id offset url use_proxy num_sub_sentences w
      = (inr result, t0 ++ t, w')
    ∧ result !! "url" = Some (VStr url)
    ∧ result !! "response_status" = Some (VInt (resp_status (res_response res)))
    ∧ (∀ c, result !! "content" = Some c →
         ∃ text,
           let extracted :=
             process_story_links
               (story_readability (story_html_clean (str_strip text))) url in
           c = VStr (if _MAX_STORY_CONTENT_LENGTH <? len extracted
                     then shorten (info_text (StoryContentInfo extracted))
                            _MAX_STORY_CONTENT_LENGTH
                     else extracted)).
Proof.
  destruct (_async_fetch_story_impl_run feed_id offset url use_proxy w)
    as (res & t0 & w0 & Hrun & _ & _).
  exists res, t0, w0. unfold fetch_story, bind at 1. rewrite Hrun.
  set (DEFAULT_RESULT :=
         <["feed_id" := VInt feed_id]>
           (<["offset" := VInt offset]>
              (<["url" := VStr url]>
                 (<["response_status" := VInt (resp_status (res_response res))]>
                    (<["use_proxy" := VBool (resp_use_proxy (res_response res))]>
                       (∅ : gmap string Val)))))).
  assert (DEFAULT_RESULT !! "url" = Some (VStr url)
          ∧ DEFAULT_RESULT !! "response_status"
            = Some (VInt (resp_status (res_response res)))
          ∧ DEFAULT_RESULT !! "content" = None) as (Hurl & Hstatus & Hnone).
  { subst DEFAULT_RESULT. by simplify_map_eq. }
  assert (∃ result t w',
            ret DEFAULT_RESULT w0 = (inr result, t, w')
            ∧ result !! "url" = Some (VStr url)
            ∧ result !! "response_status"
              = Some (VInt (resp_status (res_response res)))
            ∧ result !! "content" = None) as Hdefault.
  { by eexists _, _, _. }
  destruct (res_content res) as [content|].
  2:{ destruct Hdefault as (result & t & w' & -> & ? & ? & Hc).
      exists result, t, w'. repeat split; try done. intros c. by rewrite Hc. }
  destruct (negb (str_truthy content)).
  { destruct Hdefault as (result & t & w' & -> & ? & ? & Hc).
    exists result, t, w'. repeat split; try done. intros c. by rewrite Hc. }
  destruct (limit_story_html_run feed_id offset url content w0)
    as (limited & t1 & Hlimit & _).
  unfold bind at 1. rewrite Hlimit.
  destruct (_process_story_webpage_run feed_id offset url limited num_sub_sentences w0)
    as (result & t2 & w' & Hprocess & _ & Hcontent & _).
  unfold bind, ret. rewrite Hprocess.
  eexists _, _, _. split; [reflexivity|]. split; [reflexivity|].
  split; [by apply lookup_union_Some_l|].
  split; [by apply lookup_union_Some_l|].
  intros c. rewrite lookup_union_r by done. intros Hc.
  exists limited. by apply Hcontent.
Qed.

End WorkerFacts.

(** * The canned world at work *)

Section Examples.
#[local] Existing Instance Fake.world.
#[local] Existing Instance Fake.feedlib.
#[local] Existing Instance Fake.extractor.

(** A resolved URL is read without proxy although the caller asked for it
    and the draw would keep it; a tagged URL, also resolved, is read
    through the proxy although the caller did not ask for it. *)
Lemma sync_feed_proxy_precedence_witness :
  (∃ first rest,
     reads (sync_feed 7 Fake.resolved true "" None None None false [1 # 2]%Q).1.2
     = (false, first) :: rest)
  ∧ (∃ first rest,
       reads (sync_feed 7 Fake.tagged false "" None None None false [1 # 2]%Q).1.2
       = (true, first) :: rest).
Proof.
  split.
  - destruct (sync_feed_proxy_precedence 7 Fake.resolved true "" None None None
                false [1 # 2]%Q)
      as (flag & first & rest & Hreads & _ & Hresolved & _ & _ & _).
    exists first, rest. rewrite Hreads.
    rewrite (Hresolved eq_refl eq_refl). reflexivity.
  - destruct (sync_feed_proxy_precedence 7 Fake.tagged false "" None None None
                false [1 # 2]%Q)
      as (flag & first & rest & Hreads & _ & _ & Htagged & _ & _).
    exists first, rest. rewrite Hreads. rewrite (Htagged eq_refl). reflexivity.
Defined.

(** A conditional fetch answered with 304 and no body is reported as
    [READY], and nothing else happens. *)
Lemma sync_feed_failed_fetch_is_terminal_witness :
  let url := "http://unchanged.example/feed" in
  let params : gmap string Val :=
    <["etag" := VNone]> (<["last_modified" := VNone]> ∅) in
  let response := Fake.site url false in
  let t1 := [ERead url params false response] in
  sync_feed_read url false None None false [] = (inr response, t1, [])
  ∧ (resp_ok response = false ∨ resp_content response = [])
  ∧ ∃ w2,
      sync_feed 7 url false "" None None None false []
      = (inr tt, t1 ++ [ECall (update_feed_info 7 (Some READY) 304 None)], w2)
      ∧ sink_calls (t1 ++ [ECall (update_feed_info 7 (Some READY) 304 None)])
        = [update_feed_info 7 (Some READY) 304 None]
      ∧ Forall (λ e, is_parse_event e = false)
          (t1 ++ [ECall (update_feed_info 7 (Some READY) 304 None)]).
Proof.
  intros url params response t1.
  split; [vm_compute; reflexivity|]. split; [left; reflexivity|].
  apply (sync_feed_failed_fetch_is_terminal 7 url false "" None None None false
           [] response t1 []).
  - vm_compute. reflexivity.
  - left. reflexivity.
Defined.

(** A second sync of unchanged content, given the hash of that content,
    reports metadata only. *)
Lemma sync_feed_same_hash_is_metadata_only_witness :
  let url := "http://news.example/feed" in
  let params : gmap string Val :=
    <["etag" := VNone]> (<["last_modified" := VNone]> ∅) in
  let response := Fake.site url false in
  let t1 := [ERead url params false response] in
  let prior := Some "<p>http://news.example/feed.</p>" in
  let report := update_feed_info 7 None 200 None in
  sync_feed_read url false None None false [] = (inr response, t1, [])
  ∧ resp_ok response = true
  ∧ resp_content response ≠ []
  ∧ prior = Some (compute_hash_base64 (resp_content response))
  ∧ ∃ w2,
      sync_feed 7 url false "" prior None None false []
      = (inr tt, t1 ++ [ECall report], w2)
      ∧ sink_calls (t1 ++ [ECall report]) = [report]
      ∧ Forall (λ e, is_parse_event e = false) (t1 ++ [ECall report])
      ∧ (∀ feed r, ECall (update_feed 7 feed r) ∉ t1 ++ [ECall report]).
Proof.
  intros url params response t1 prior report.
  split; [vm_compute; reflexivity|]. split; [reflexivity|].
  split; [discriminate|]. split; [vm_compute; reflexivity|].
  apply (sync_feed_same_hash_is_metadata_only 7 url false "" prior None None
           [] response t1 []).
  - vm_compute. reflexivity.
  - reflexivity.
  - discriminate.
  - vm_compute. reflexivity.
Defined.

(** Of three stories the second has no link and fails validation: the
    feed that is returned holds the first and the third, and one error is
    logged for the second.  A feed without title fails as a whole, and the
    exception names its url. *)
Lemma validate_feed_isolates_storys_witness :
  (∃ result logs,
     validate_feed (Fake.blog_feed (Some "Blog")) ([] : list Q)
     = (inr result, logs, [])
     ∧ story_unique_id <$> Fake.three_storys = ["a"; "b"; "c"]
     ∧ story_unique_id <$> feed_storys result = ["a"; "c"]
     ∧ feed_title result = Some "Blog"
     ∧ feed_url result = Some "http://blog.example/feed"
     ∧ logs = [ELog (LogStoryInvalid
                       {| args0 := "link: required"; args_rest := [] |}
                       (Some "http://blog.example/feed") (Some "No link"))])
  ∧ validate_feed (Fake.blog_feed None) ([] : list Q)
    = (inl (ExInvalid {| args0 := "title: required, feed=http://blog.example/feed";
                         args_rest := [] |}), [], []).
Proof.
  split.
  - pose proof (validate_feed_isolates_storys (Fake.blog_feed (Some "Blog")) ([] : list Q))
      as Hfeed.
    change (_validate_feed (Fake.blog_feed (Some "Blog")))
      with (inr (Fake.blog_feed (Some "Blog")) : Invalid + Feed) in Hfeed.
    destruct Hfeed as (result & storys & logs & Hrun & Hstorys & Hkept & Hresult
                       & _ & _ & Hlogs & _).
    exists result, logs. split; [exact Hrun|]. split; [reflexivity|].
    rewrite Hstorys, Hresult, Hkept, Hlogs. repeat split; reflexivity.
  - exact (validate_feed_isolates_storys (Fake.blog_feed None) ([] : list Q)).
Defined.

(** A page of three sentences that is not full text, fetched against a
    hint of three: the result of [fetch_story] has no content. *)
Lemma process_story_webpage_rejects_short_witness :
  let url := "http://story.example/a" in
  let text := "<p>http://story.example/a.</p>" in
  is_fulltext_content (StoryContentInfo text) = false
  ∧ Z.of_nat (length (split_sentences text)) ≤ 3
  ∧ (∃ t,
       _process_story_webpage 7 0 url text (Some 3) ([] : list Q)
       = (inr (<["feed_id" := VInt 7]>
                 (<["offset" := VInt 0]> (<["url" := VStr url]> ∅))), t, [])
       ∧ sink_calls t = [])
  ∧ (∃ result t,
       fetch_story 7 0 url false (Some 3) ([] : list Q) = (inr result, t, [])
       ∧ sink_calls t = []
       ∧ result !! "content" = None
       ∧ result !! "summary" = None).
Proof.
  intros url text. split; [reflexivity|]. split; [vm_compute; discriminate|].
  destruct (process_story_webpage_rejects_short 7 0 url text 3 ([] : list Q))
    as ((t & Hrun & Hcalls & _) & Hfetch).
  - reflexivity.
  - vm_compute. discriminate.
  - split; [exists t; split; [exact Hrun | exact Hcalls]|].
    destruct (Hfetch false [] {| res_url := url; res_content := Some text;
                                 res_response := Fake.site url false |}
                [ERead url ∅ false (Fake.site url false)] text [])
      as (result & t' & Hrun' & Hcalls' & Hc & Hs & _).
    + vm_compute. reflexivity.
    + reflexivity.
    + vm_compute. reflexivity.
    + exists result, t'. repeat split; assumption.
Defined.

(** All three ceilings reached: a page of 6,000,000 characters is cut to
    5,120,000, and of an extraction of 2,000,000 characters the reported
    content has 1,024,000 and the summary 300. *)
Lemma story_size_ceilings_witness :
  let url := "http://story.example/a" in
  let page := str_mul "a" 6000000 in
  let text := str_mul "a" 2000000 in
  (∀ s, len (shorten s _MAX_STORY_CONTENT_LENGTH) ≤ _MAX_STORY_CONTENT_LENGTH)
  ∧ (∀ s, len (shorten s _MAX_STORY_SUMMARY_LENGTH) ≤ _MAX_STORY_SUMMARY_LENGTH)
  ∧ len page = 6000000
  ∧ len text = 2000000
  ∧ (∃ limited t,
       limit_story_html 7 0 url page ([] : list Q) = (inr limited, t, [])
       ∧ len limited = 5120000)
  ∧ (∃ result t w' c s,
       _process_story_webpage 7 0 url text None ([] : list Q)
       = (inr result, t, w')
       ∧ result !! "content" = Some (VStr c) ∧ len c = 1024000
       ∧ result !! "summary" = Some (VStr s) ∧ len s = 300).
Proof.
  intros url. cbv zeta.
  generalize (len_str_mul "a" 6000000), (len_str_mul "a" 2000000).
  generalize (str_mul "a" 6000000), (str_mul "a" 2000000).
  intros page text Hpage Htext.
  change (Z.pos 6000000 * len "a") with 6000000 in Hpage.
  change (Z.pos 2000000 * len "a") with 2000000 in Htext.
  assert (∀ s, len (shorten s _MAX_STORY_CONTENT_LENGTH) ≤ _MAX_STORY_CONTENT_LENGTH)
    as Hcap_content.
  { intros s. apply len_str_prefix. unfold _MAX_STORY_CONTENT_LENGTH. lia. }
  assert (∀ s, len (shorten s _MAX_STORY_SUMMARY_LENGTH) ≤ _MAX_STORY_SUMMARY_LENGTH)
    as Hcap_summary.
  { intros s. apply len_str_prefix. unfold _MAX_STORY_SUMMARY_LENGTH. lia. }
  split; [exact Hcap_content|]. split; [exact Hcap_summary|].
  split; [exact Hpage|]. split; [exact Htext|].
  destruct (story_size_ceilings 7 0 url page text None ([] : list Q))
    as (_ & (limited & t & Hlimit & _ & _ & _ & Hcut)
          & (result & t' & w' & Hrun & Hcontent & Hsummary & Hle_content & Hle_summary)).
  assert (len (str_prefix _MAX_STORY_CONTENT_LENGTH text) = 1024000) as Hplain.
  { apply len_str_prefix_full. rewrite Htext. unfold _MAX_STORY_CONTENT_LENGTH. lia. }
  assert (len (str_prefix _MAX_STORY_SUMMARY_LENGTH
                 (str_prefix _MAX_STORY_CONTENT_LENGTH text)) = 300) as Hshort.
  { apply len_str_prefix_full. rewrite Hplain. unfold _MAX_STORY_SUMMARY_LENGTH. lia. }
  split.
  - exists limited, t. split; [exact Hlimit|].
    change (len (story_html_clean page)) with (len page) in Hcut.
    rewrite Hcut by (rewrite Hpage; unfold _MAX_STORY_HTML_LENGTH; lia).
    apply (len_str_prefix_full _MAX_STORY_HTML_LENGTH page).
    rewrite Hpage. unfold _MAX_STORY_HTML_LENGTH. lia.
  - exists result, t', w',
      (str_prefix _MAX_STORY_CONTENT_LENGTH text),
      (str_prefix _MAX_STORY_SUMMARY_LENGTH
         (str_prefix _MAX_STORY_CONTENT_LENGTH text)).
    split; [exact Hrun|].
    assert (result !! "content"
            = Some (VStr (str_prefix _MAX_STORY_CONTENT_LENGTH text))
            ∧ result !! "summary"
              = Some (VStr (str_prefix _MAX_STORY_SUMMARY_LENGTH
                              (str_prefix _MAX_STORY_CONTENT_LENGTH text))))
      as [Hc Hs].
    { clear Hcontent Hsummary Hle_content Hle_summary.
      unfold _process_story_webpage in Hrun.
      cbv beta iota delta
        [str_strip story_html_clean story_readability process_story_links
         StoryContentInfo info_text shorten Fake.extractor] in Hrun.
      rewrite (str_truthy_len text) in Hrun by lia.
      change (negb true) with false in Hrun. cbv beta iota in Hrun.
      rewrite Htext in Hrun.
      change (_MAX_STORY_CONTENT_LENGTH <? 2000000) with true in Hrun.
      rewrite (str_truthy_len _ ltac:(rewrite Hshort; lia)) in Hrun.
      unfold bind, log, emit, ret, call, perform in Hrun. simpl in Hrun.
      injection Hrun as <- _ _. by simplify_map_eq. }
    split; [exact Hc|]. split; [exact Hplain|]. split; [exact Hs|]. exact Hshort.
Defined.

(** A story page that redirects: the fetch ends on another URL, the result
    reports the caller's. *)
Lemma fetch_story_reports_input_url_witness :
  let url := "http://hop.example/a" in
  ∃ res t0 w0 result t w',
    _async_fetch_story_impl 7 0 url false ([] : list Q) = (inr res, t0, w0)
    ∧ res_url res = "http://hop.example/a++"
    ∧ fetch_story 7 0 url false None [] = (inr result, t0 ++ t, w')
    ∧ result !! "url" = Some (VStr url).
Proof.
  intros url.
  destruct (fetch_story_reports_input_url 7 0 url false None ([] : list Q))
    as (res & t0 & w0 & result & t & w' & Himpl & Hrun & Hurl & _).
  exists res, t0, w0, result, t, w'.
  split; [exact Himpl|]. split; [|split; [exact Hrun | exact Hurl]].
  vm_compute in Himpl. injection Himpl as <- _ _. reflexivity.
Defined.

(** Entries arriving oldest first come out newest first. *)
Example _get_storys_oldest_first :
  story_dt_published
    <$> sorted_reverse story_dt_published
          (rev Fake.three_storys ++ Fake.three_storys)
  = [30; 30; 20; 20; 10; 10].
Proof. reflexivity. Qed.

(** A page that always redirects further is read exactly twice; the fetch
    returns the second page and the target it did not follow. *)
Example _fetch_story_always_redirecting :
  let run := _fetch_story ∅ 7 0 "http://hop.example/a" false ([] : list Q) in
  length (reads run.1.2) = 2%nat
  ∧ run.1.1 = inr ("http://hop.example/a++", Some "goto http://hop.example/a++",
                   Fake.site "http://hop.example/a+" false).
Proof. split; vm_compute; reflexivity. Qed.

(** Discovery on a URL without feed: two sink calls, no feed. *)
Example find_feed_nothing_found :
  sink_calls (find_feed 7 "http://none.example/" ([] : list Q)).1.2
  = [update_feed_creation_status 7 UPDATING;
     save_feed_creation_result 7 ["not found"] None].
Proof. vm_compute. reflexivity. Qed.

End Examples.

(** C8, as the spec words it, fails on the story-HTML ceiling: a page of
    exactly 5,000,000 characters is below the ceiling of the code and is
    handed on as it is, although the cleanup would have emptied it. *)
Lemma story_html_ceiling_counterexample :
  let content := str_mul "a" 5000000 in
  len content = 5000000
  ∧ @limit_story_html (list Q) Fake.emptying_extractor 7 0
      "http://story.example/a" content []
    = (inr content, [], [])
  ∧ ¬ (_MAX_STORY_HTML_LENGTH = 5000000
       ∧ _MAX_STORY_CONTENT_LENGTH = 1024000
       ∧ _MAX_STORY_SUMMARY_LENGTH = 300).
Proof.
  intros content.
  assert (len content = 5000000) as Hlen.
  { unfold content. rewrite len_str_mul. reflexivity. }
  clearbody content. split; [exact Hlen|]. split.
  - unfold limit_story_html. rewrite Hlen. reflexivity.
  - intros [Hhtml _]. discriminate Hhtml.
Qed.

(** * Further properties of the worker *)

Section WorkerMore.
Context {W : Type} `{!World W} `{!FeedLib} `{!Extractor}.

#[local] Arguments _parse_found : simpl never.
#[local] Arguments validate_feed : simpl never.

Lemma read_requests_app t1 t2 :
  read_requests (t1 ++ t2) = read_requests t1 ++ read_requests t2.
Proof. unfold read_requests. apply omap_app. Qed.

Lemma read_requests_read u p b r t :
  read_requests (ERead u p b r :: t) = (u, p, b) :: read_requests t.
Proof. reflexivity. Qed.

Lemma reads_read u p b r t : reads (ERead u p b r :: t) = (b, r) :: reads t.
Proof. reflexivity. Qed.

Lemma reads_nil_requests t : reads t = [] → read_requests t = [].
Proof.
  induction t as [|e t IH]; [done|].
  unfold reads, read_requests. rewrite !omap_cons.
  destruct e; try exact IH. discriminate.
Qed.

(** ** Feed synchronization *)

Lemma sync_feed_read_shape url use_proxy etag last_modified is_refresh (w : W) :
  let options :=
    <["request_timeout" := VInt feed_reader_request_timeout]> (get_proxy_options url) in
  let params := read_params etag last_modified is_refresh in
  let flag := if is_use_proxy_url url then true
              else if is_resolved_url url w then false
              else has_proxy options && use_proxy
                   && negb (Qltb (random_random w).1 switch_prob) in
  ∃ t0 w0 first w1 response t w',
    reads t0 = [] ∧ sink_calls t0 = []
    ∧ reader_read options url params flag w0 = (first, w1)
    ∧ sync_feed_read url use_proxy etag last_modified is_refresh w
      = (inr response, t0 ++ ERead url params flag first :: t, w')
    ∧ if negb flag && has_proxy options && is_need_proxy (resp_status first)
      then ∃ proxy_response,
             reader_read options url params true w1 = (proxy_response, w')
             ∧ response = (if resp_ok proxy_response then proxy_response else first)
             ∧ t = [ERead url params true proxy_response]
      else response = first ∧ t = [] ∧ w' = w1.
Proof.
  intros options params flag. unfold sync_feed_read.
  fold (read_params etag last_modified is_refresh). fold params. fold options.
  destruct (proxy_decision_run options url use_proxy w)
    as (t0 & w0 & Hdec & Hr0 & Hc0 & _).
  fold flag in Hdec. unfold bind at 1. rewrite Hdec.
  unfold bind, perform, ret.
  destruct (reader_read options url params flag w0) as [first w1] eqn:Hfirst.
  exists t0, w0, first, w1.
  destruct (negb flag && has_proxy options && is_need_proxy (resp_status first)).
  - destruct (reader_read options url params true w1) as [proxy_response w2] eqn:Hproxy.
    eexists _, _, _. split; [exact Hr0|]. split; [exact Hc0|].
    split; [exact Hfirst|]. split; [reflexivity|]. by exists proxy_response.
  - eexists _, _, _. split; [exact Hr0|]. split; [exact Hc0|].
    split; [exact Hfirst|]. split; [reflexivity|]. done.
Qed.

Lemma sync_feed_report_shape (feed_id : Z) (url : Url)
    (checksum_data_base64 : string) (content_hash_base64 : option string)
    (is_refresh : bool) (response : FeedResponse) (w : W) :
  let failed := negb (resp_ok response) || negb (bytes_truthy (resp_content response)) in
  let same := negb is_refresh
              && str_eq_ostr (compute_hash_base64 (resp_content response))
                   content_hash_base64 in
  let info := λ st ws, update_feed_info feed_id st (resp_status response) ws in
  ∃ t w' c,
    sync_feed_report feed_id url checksum_data_base64 content_hash_base64
      is_refresh response w = (inr tt, t ++ [ECall c], w')
    ∧ reads t = [] ∧ sink_calls t = []
    ∧ if failed then
        t = [] ∧ c = info (Some (if resp_status response =? 304 then READY else ERROR)) None
      else if same then t = [] ∧ c = info None None
      else
        match RawFeedParser_parse response with
        | inl msg =>
            t = [ERawParse response;
                 ELog (LogRawParseFailed feed_id url (FeedParserError msg))]
            ∧ c = info (Some ERROR) (Some (str_exn (FeedParserError msg)))
        | inr raw_result =>
            ∃ t1, t = ERawParse response :: t1
            ∧ (∃ b, EChecksumDiff b ∈ t1)
            ∧ match (_parse_found (response, raw_result)
                       (Some checksum_data_base64) is_refresh w).1.1 with
              | inl ex => c = info (Some ERROR) (Some (str_exn ex))
              | inr feed => c = update_feed feed_id feed is_refresh
              end
        end.
Proof.
  intros failed same info. unfold sync_feed_report. fold failed. fold same.
  destruct failed.
  { unfold bind, _update_feed_info, call, perform, ret.
    destruct (service_call _ w) as [res w']. by eexists [], _, _. }
  destruct same.
  { unfold bind, _update_feed_info, call, perform, ret.
    destruct (service_call _ w) as [res w']. by eexists [], _, _. }
  unfold bind at 1. unfold try_except at 1. unfold bind at 1 2. unfold emit, lift.
  destruct (RawFeedParser_parse response) as [msg|raw_result].
  { simpl. unfold bind, log, emit, _update_feed_info, call, perform, ret.
    destruct (service_call _ w) as [res w'].
    by eexists [_; _], _, _. }
  simpl. unfold bind at 1.
  assert (∃ t0,
            match raw_warnings raw_result with
            | [] => ret tt
            | _ :: _ =>
                log (LogParseWarnings feed_id url
                       (String.concat "; " (raw_warnings raw_result)))
            end w = (inr tt, t0, w)
            ∧ reads t0 = [] ∧ sink_calls t0 = []) as (t0 & -> & Hreads0 & Hcalls0).
  { destruct (raw_warnings raw_result); by eexists. }
  unfold bind at 1. unfold try_except at 1. unfold bind at 1.
  destruct (_parse_found_run (response, raw_result) (Some checksum_data_base64)
              is_refresh w) as (res & t & Hrun & Hcalls & Hreads & Hres).
  assert (∃ b, EChecksumDiff b ∈ t) as Hdiff.
  { revert Hrun. unfold _parse_found, bind at 1, emit.
    destruct (bind _ _ w) as [[r t'] w'']. intros [= _ <- _].
    eexists. apply list_elem_of_here. }
  rewrite Hrun. simpl. destruct res as [ex|feed].
  - rewrite Hres. unfold bind, log, emit, _update_feed_info, call, perform, ret.
    destruct (service_call _ w) as [res w'].
    eexists (_ :: t0 ++ t ++ [_]), _, _. split.
    { simpl. by rewrite !app_nil_r, <- !app_assoc. }
    simpl. rewrite !reads_app, !sink_calls_app, Hreads, Hcalls, Hreads0, Hcalls0.
    split; [done|]. split; [done|]. eexists. split; [reflexivity|].
    split; [|done]. destruct Hdiff as [b Hb]. exists b. set_solver.
  - unfold bind, ret, call, perform.
    destruct (service_call _ w) as [res w'].
    eexists (_ :: t0 ++ t), _, _. split.
    { simpl. by rewrite !app_nil_r, <- !app_assoc. }
    simpl. rewrite !reads_app, !sink_calls_app, Hreads, Hcalls, Hreads0, Hcalls0.
    split; [done|]. split; [done|]. eexists. split; [reflexivity|].
    split; [|done]. destruct Hdiff as [b Hb]. exists b. set_solver.
Qed.

Lemma changed_not_same (is_refresh : bool) (hash : string) (prior : option string) :
  is_refresh = true ∨ prior ≠ Some hash →
  negb is_refresh && str_eq_ostr hash prior = false.
Proof.
  intros [-> | Hne]; [done|]. destruct is_refresh; [done|]. simpl.
  destruct prior as [s|]; [|done]. simpl. apply bool_decide_eq_false.
  congruence.
Qed.

Lemma fetched_not_failed (response : FeedResponse) :
  resp_ok response = true → resp_content response ≠ [] →
  negb (resp_ok response) || negb (bytes_truthy (resp_content response)) = false.
Proof. intros ->. by destruct (resp_content response). Qed.

(** X1: every [sync_feed] returns normally and reports to the result sink
    exactly once, as its last action, after one or two transport reads; the
    report is an [update_feed_info] or an [update_feed] for the feed id it
    was given. *)
Theorem sync_feed_reports_exactly_once (feed_id : Z) (url : Url) (use_proxy : bool)
    (checksum_data_base64 : string) (content_hash_base64 etag last_modified : option string)
    (is_refresh : bool) (w : W) :
  ∃ t w' c,
    sync_feed feed_id url use_proxy checksum_data_base64 content_hash_base64
      etag last_modified is_refresh w = (inr tt, t, w')
    ∧ sink_calls t = [c]
    ∧ last t = Some (ECall c)
    ∧ (1 ≤ length (reads t) ≤ 2)%nat
    ∧ ((∃ st rs ws, c = update_feed_info feed_id st rs ws)
       ∨ (∃ feed, c = update_feed feed_id feed is_refresh)).
Proof.
  destruct (sync_feed_read_run url use_proxy etag last_modified is_refresh w)
    as (response & flag & first & rest & t1 & w1 & Hread & Hreads & _ & Hrest & Hcalls & _).
  destruct (sync_feed_report_shape feed_id url checksum_data_base64
              content_hash_base64 is_refresh response w1)
    as (t2 & w2 & c & Hreport & Hreads2 & Hcalls2 & Hshape).
  unfold sync_feed, bind. rewrite Hread, Hreport.
  exists (t1 ++ t2 ++ [ECall c]), w2, c. split; [reflexivity|].
  split. { by rewrite !sink_calls_app, Hcalls, Hcalls2. }
  split. { by rewrite app_assoc, last_snoc. }
  split.
  { rewrite !reads_app, Hreads, Hreads2. simpl.
    destruct Hrest as [-> | (_ & _ & _ & p & ->)]; simpl; lia. }
  destruct (negb (resp_ok response) || _).
  { destruct Hshape as [_ ->]. left. by eexists _, _, _. }
  destruct (negb is_refresh && _).
  { destruct Hshape as [_ ->]. left. by eexists _, _, _. }
  destruct (RawFeedParser_parse response) as [msg|raw_result].
  { destruct Hshape as [_ ->]. left. by eexists _, _, _. }
  destruct Hshape as (t3 & _ & _ & Hc).
  destruct (_parse_found _ _ _ w1).1.1 as [ex|feed]; subst c.
  - left. by eexists _, _, _.
  - right. by eexists.
Qed.

(** X2: every read of a [sync_feed] goes to the URL it was given, and all
    of them carry the same conditional tokens: none on a forced refresh,
    and the caller's [etag] and [last_modified] otherwise, also on the
    retry through the proxy. *)
Theorem sync_feed_conditional_tokens (feed_id : Z) (url : Url) (use_proxy : bool)
    (checksum_data_base64 : string) (content_hash_base64 etag last_modified : option string)
    (is_refresh : bool) (w : W) :
  let requests :=
    read_requests (sync_feed feed_id url use_proxy checksum_data_base64
                     content_hash_base64 etag last_modified is_refresh w).1.2 in
  Forall (λ rq, rq.1.1 = url) requests
  ∧ (is_refresh = true → Forall (λ rq, rq.1.2 = ∅) requests)
  ∧ (is_refresh = false →
     Forall (λ rq, rq.1.2 !! "etag" = Some (opt_str etag)
                   ∧ rq.1.2 !! "last_modified" = Some (opt_str last_modified)
                   ∧ dom rq.1.2 = ({["etag"; "last_modified"]} : gset string))
            requests).
Proof.
  intros requests. subst requests.
  destruct (sync_feed_read_shape url use_proxy etag last_modified is_refresh w)
    as (t0 & w0 & first & w1 & response & t & w' & Hr0 & _ & _ & Hread & Hretry).
  destruct (sync_feed_report_shape feed_id url checksum_data_base64
              content_hash_base64 is_refresh response w')
    as (t2 & w2 & c & Hreport & Hreads2 & _ & _).
  unfold sync_feed, bind. rewrite Hread, Hreport. simpl.
  rewrite !read_requests_app, (reads_nil_requests _ Hr0),
    (reads_nil_requests _ Hreads2). simpl. rewrite app_nil_r.
  set (params := read_params etag last_modified is_refresh).
  assert (∃ rest, read_requests t = rest
                  ∧ Forall (λ rq, rq.1.1 = url ∧ rq.1.2 = params) rest)
    as (rest & -> & Hrest).
  { destruct (negb _ && _ && _).
    - destruct Hretry as (p & _ & _ & ->). eexists. split; [reflexivity|].
      by repeat constructor.
    - destruct Hretry as (_ & -> & _). by exists []. }
  assert (Forall (λ rq : Url * gmap string Val * bool, rq.1.1 = url ∧ rq.1.2 = params)
            ((url, params, (if is_use_proxy_url url then true
                            else if is_resolved_url url w then false
                            else has_proxy
                                   (<["request_timeout" := VInt feed_reader_request_timeout]>
                                      (get_proxy_options url))
                                 && use_proxy
                                 && negb (Qltb (random_random w).1 switch_prob)))
             :: rest)) as Hall.
  { by constructor. }
  split; [|split].
  - eapply Forall_impl; [exact Hall|]. by intros rq [? _].
  - intros ->. eapply Forall_impl; [exact Hall|]. by intros rq [_ ->].
  - intros ->. eapply Forall_impl; [exact Hall|]. intros rq [_ ->].
    subst params. unfold read_params. simpl.
    split; [by simplify_map_eq|]. split; [by simplify_map_eq|].
    rewrite !dom_insert_L, dom_empty_L. set_solver.
Qed.

(** X3: the response [sync_feed] works with is that of the first read,
    unless a retry through the proxy was made and came back ok, in which
    case it is that of the retry; a retry that fails never replaces the
    first response. *)
Theorem sync_feed_retry_replaces_only_if_ok (url : Url) (use_proxy : bool)
    (etag last_modified : option string) (is_refresh : bool) (w : W) :
  ∃ flag first response t w',
    sync_feed_read url use_proxy etag last_modified is_refresh w
    = (inr response, t, w')
    ∧ (reads t = [(flag, first)] ∧ response = first
       ∨ ∃ proxy_response,
           reads t = [(flag, first); (true, proxy_response)]
           ∧ flag = false
           ∧ response = (if resp_ok proxy_response then proxy_response else first)).
Proof.
  destruct (sync_feed_read_shape url use_proxy etag last_modified is_refresh w)
    as (t0 & w0 & first & w1 & response & t & w' & Hr0 & _ & _ & Hread & Hretry).
  set (flag := if is_use_proxy_url url then true else _) in *.
  eexists flag, first, response, _, w'. split; [exact Hread|].
  rewrite reads_app, Hr0. simpl.
  destruct (negb flag && _ && _) eqn:Hcond.
  - destruct Hretry as (p & _ & -> & ->). right. exists p.
    apply andb_true_iff in Hcond as [Hcond _].
    apply andb_true_iff in Hcond as [Hflag _].
    apply negb_true_iff in Hflag. done.
  - destruct Hretry as (-> & -> & _). by left.
Qed.

Lemma sync_feed_changed_shape (feed_id : Z) (url : Url) (use_proxy : bool)
    (checksum_data_base64 : string) (content_hash_base64 etag last_modified : option string)
    (is_refresh : bool) (w : W) response t1 w1 :
  sync_feed_read url use_proxy etag last_modified is_refresh w
  = (inr response, t1, w1) →
  resp_ok response = true →
  resp_content response ≠ [] →
  is_refresh = true
  ∨ content_hash_base64 ≠ Some (compute_hash_base64 (resp_content response)) →
  ∃ t w2 c,
    sync_feed feed_id url use_proxy checksum_data_base64 content_hash_base64
      etag last_modified is_refresh w = (inr tt, t1 ++ t ++ [ECall c], w2)
    ∧ sink_calls t = []
    ∧ match RawFeedParser_parse response with
      | inl msg =>
          t = [ERawParse response;
               ELog (LogRawParseFailed feed_id url (FeedParserError msg))]
          ∧ c = update_feed_info feed_id (Some ERROR) (resp_status response)
                  (Some (str_exn (FeedParserError msg)))
      | inr raw_result =>
          ∃ t', t = ERawParse response :: t'
          ∧ (∃ b, EChecksumDiff b ∈ t')
          ∧ match (_parse_found (response, raw_result)
                     (Some checksum_data_base64) is_refresh w1).1.1 with
            | inl ex =>
                c = update_feed_info feed_id (Some ERROR) (resp_status response)
                      (Some (str_exn ex))
            | inr feed => c = update_feed feed_id feed is_refresh
            end
      end.
Proof.
  intros Hread Hok Hcontent Hchanged.
  destruct (sync_feed_report_shape feed_id url checksum_data_base64
              content_hash_base64 is_refresh response w1)
    as (t & w2 & c & Hreport & _ & Hcalls & Hshape).
  rewrite (fetched_not_failed _ Hok Hcontent) in Hshape.
  rewrite (changed_not_same _ _ _ Hchanged) in Hshape.
  unfold sync_feed, bind. rewrite Hread, Hreport.
  by exists t, w2, c.
Qed.

(** X4: when the fetched document cannot be raw-parsed, [sync_feed] logs
    the failure and reports the feed as [ERROR] with the text of the
    parser's exception as warnings; nothing is diffed or normalized and no
    [update_feed] is made. *)
Theorem sync_feed_raw_parse_failure (feed_id : Z) (url : Url) (use_proxy : bool)
    (checksum_data_base64 : string) (content_hash_base64 etag last_modified : option string)
    (is_refresh : bool) (w : W) response t1 w1 msg :
  sync_feed_read url use_proxy etag last_modified is_refresh w
  = (inr response, t1, w1) →
  resp_ok response = true →
  resp_content response ≠ [] →
  is_refresh = true
  ∨ content_hash_base64 ≠ Some (compute_hash_base64 (resp_content response)) →
  RawFeedParser_parse response = inl msg →
  ∃ w2,
    sync_feed feed_id url use_proxy checksum_data_base64 content_hash_base64
      etag last_modified is_refresh w
    = (inr tt,
       t1 ++ [ERawParse response;
              ELog (LogRawParseFailed feed_id url (FeedParserError msg));
              ECall (update_feed_info feed_id (Some ERROR) (resp_status response)
                       (Some (str_exn (FeedParserError msg))))],
       w2).
Proof.
  intros Hread Hok Hcontent Hchanged Hparse.
  destruct (sync_feed_changed_shape feed_id url use_proxy checksum_data_base64
              content_hash_base64 etag last_modified is_refresh w response t1 w1
              Hread Hok Hcontent Hchanged)
    as (t & w2 & c & Hrun & _ & Hshape).
  rewrite Hparse in Hshape. destruct Hshape as [-> ->].
  exists w2. exact Hrun.
Qed.

(** X5: when the fetched document raw-parses, the one report of
    [sync_feed] is decided by the normalization: a validation or parser
    error becomes an [update_feed_info] with status [ERROR] and the text of
    the exception, and a normalized feed is sent as [update_feed] with the
    caller's refresh flag, after the raw parse and the checksum diff. *)
Theorem sync_feed_normalization_outcome (feed_id : Z) (url : Url) (use_proxy : bool)
    (checksum_data_base64 : string) (content_hash_base64 etag last_modified : option string)
    (is_refresh : bool) (w : W) response t1 w1 raw_result :
  sync_feed_read url use_proxy etag last_modified is_refresh w
  = (inr response, t1, w1) →
  resp_ok response = true →
  resp_content response ≠ [] →
  is_refresh = true
  ∨ content_hash_base64 ≠ Some (compute_hash_base64 (resp_content response)) →
  RawFeedParser_parse response = inr raw_result →
  ∃ t w2 c,
    sync_feed feed_id url use_proxy checksum_data_base64 content_hash_base64
      etag last_modified is_refresh w
    = (inr tt, t1 ++ ERawParse response :: t ++ [ECall c], w2)
    ∧ sink_calls t = []
    ∧ (∃ b, EChecksumDiff b ∈ t)
    ∧ match (_parse_found (response, raw_result)
               (Some checksum_data_base64) is_refresh w1).1.1 with
      | inl ex =>
          c = update_feed_info feed_id (Some ERROR) (resp_status response)
                (Some (str_exn ex))
      | inr feed => c = update_feed feed_id feed is_refresh
      end.
Proof.
  intros Hread Hok Hcontent Hchanged Hparse.
  destruct (sync_feed_changed_shape feed_id url use_proxy checksum_data_base64
              content_hash_base64 etag last_modified is_refresh w response t1 w1
              Hread Hok Hcontent Hchanged)
    as (t & w2 & c & Hrun & Hcalls & Hshape).
  rewrite Hparse in Hshape. destruct Hshape as (t' & -> & Hdiff & Hc).
  exists t', w2, c. split; [exact Hrun|]. split; [exact Hcalls|]. by split.
Qed.

(** X6: a forced refresh is never short-cut by the content hash: with a
    successful, non-empty response the document is raw-parsed again even
    when its hash equals the prior hash the caller passed. *)
Theorem sync_feed_refresh_always_parses (feed_id : Z) (url : Url) (use_proxy : bool)
    (checksum_data_base64 : string) (etag last_modified : option string)
    (w : W) response t1 w1 :
  sync_feed_read url use_proxy etag last_modified true w
  = (inr response, t1, w1) →
  resp_ok response = true →
  resp_content response ≠ [] →
  ∃ t w2,
    sync_feed feed_id url use_proxy checksum_data_base64
      (Some (compute_hash_base64 (resp_content response)))
      etag last_modified true w
    = (inr tt, t1 ++ ERawParse response :: t, w2).
Proof.
  intros Hread Hok Hcontent.
  destruct (sync_feed_changed_shape feed_id url use_proxy checksum_data_base64
              (Some (compute_hash_base64 (resp_content response)))
              etag last_modified true w response t1 w1
              Hread Hok Hcontent (or_introl eq_refl))
    as (t & w2 & c & Hrun & _ & Hshape).
  destruct (RawFeedParser_parse response) as [msg|raw_result].
  - destruct Hshape as [-> _]. eexists _, w2. exact Hrun.
  - destruct Hshape as (t' & -> & _). eexists _, w2. exact Hrun.
Qed.

(** ** Normalization *)

(** X7: the checksum history is used by [_parse_found] only when the
    decoded checksum data is non-empty and the sync is not a forced
    refresh.  On a refresh the outcome does not depend on the checksum
    passed, and absent or empty checksum data gives the outcome of a
    refresh. *)
Theorem parse_found_history found (checksum_data_base64 other : option string)
    (is_refresh : bool) (w : W) :
  _parse_found found checksum_data_base64 true w = _parse_found found other true w
  ∧ (UrlsafeBase64_decode checksum_data_base64 = None
     ∨ UrlsafeBase64_decode checksum_data_base64 = Some [] →
     _parse_found found checksum_data_base64 is_refresh w
     = _parse_found found checksum_data_base64 true w)
  ∧ ∃ t,
      (_parse_found found checksum_data_base64 is_refresh w).1.2
      = EChecksumDiff
          (match UrlsafeBase64_decode checksum_data_base64 with
           | Some (_ :: _) => negb is_refresh
           | _ => false
           end) :: t.
Proof.
  destruct found as [response raw_result]. unfold _parse_found.
  split; [|split].
  - destruct (UrlsafeBase64_decode checksum_data_base64) as [data|],
      (UrlsafeBase64_decode other) as [data'|];
      rewrite ?andb_false_r; reflexivity.
  - intros [-> | ->]; rewrite ?andb_false_r; reflexivity.
  - unfold bind at 1, emit.
    destruct (UrlsafeBase64_decode checksum_data_base64) as [[|b data]|];
      simpl; destruct is_refresh; simpl;
      match goal with |- context [bind ?c ?k w] =>
        destruct (bind c k w) as [[r t] w'] end;
      by eexists.
Qed.

(** X8: [_parse_found] is a pure transform: it reads nothing from the
    network, calls no result sink and leaves the world as it was; the only
    exceptions it raises are [Invalid] and [FeedParserError]; and when the
    feed parser fails nothing is validated or logged. *)
Theorem parse_found_is_pure found (checksum_data_base64 : option string)
    (is_refresh : bool) (w : W) :
  let checksum :=
    match UrlsafeBase64_decode checksum_data_base64 with
    | Some data =>
        if bytes_truthy data && negb is_refresh
        then Some (FeedChecksum_load data) else None
    | None => None
    end in
  ∃ res t,
    _parse_found found checksum_data_base64 is_refresh w = (res, t, w)
    ∧ sink_calls t = [] ∧ reads t = []
    ∧ (∀ ex, res = inl ex →
         (∃ invalid, ex = ExInvalid invalid) ∨ (∃ msg, ex = FeedParserError msg))
    ∧ (∀ msg,
         FeedParser_parse checksum found.2 = inl msg →
         res = inl (FeedParserError msg)
         ∧ t = [EChecksumDiff (bool_decide (is_Some checksum))]).
Proof.
  intros checksum.
  destruct (_parse_found_run found checksum_data_base64 is_refresh w)
    as (res & t & Hrun & Hcalls & Hreads & Hres).
  exists res, t. split; [exact Hrun|]. split; [exact Hcalls|].
  split; [exact Hreads|]. split.
  - intros ex ->. destruct ex; try discriminate; eauto.
  - intros msg Hparse. destruct found as [response raw_result].
    unfold _parse_found in Hrun. fold checksum in Hrun.
    unfold bind at 1, emit in Hrun. unfold bind at 1, lift in Hrun.
    simpl in Hparse. rewrite Hparse in Hrun. simpl in Hrun.
    by injection Hrun as <- <-.
Qed.

(** ** Story ordering *)

Lemma filter_insert_reverse {A} (key : A → Z) (k : Z) (x : A) (l : list A) :
  filter (λ a, key a = k) (insert_reverse key x l)
  = filter (λ a, key a = k) (x :: l).
Proof.
  induction l as [|y l IH]; simpl; [done|].
  destruct (Z.leb_spec (key y) (key x)) as [Hle|Hgt]; [done|].
  rewrite (filter_cons _ y), IH, !filter_cons.
  repeat case_decide; try done; lia.
Qed.

Lemma sorted_reverse_stable {A} (key : A → Z) (k : Z) (l : list A) :
  filter (λ a, key a = k) (sorted_reverse key l) = filter (λ a, key a = k) l.
Proof.
  induction l as [|x l IH]; simpl; [done|].
  rewrite filter_insert_reverse, !filter_cons, IH. done.
Qed.

Lemma sorted_reverse_sorted_id {A} (key : A → Z) (l : list A) :
  StronglySorted (key_ge key) l → sorted_reverse key l = l.
Proof.
  induction 1 as [|x l Hl IH Hx]; simpl; [done|].
  rewrite IH. destruct l as [|y l]; simpl; [done|].
  apply Forall_cons in Hx as [Hxy _]. unfold key_ge in Hxy.
  destruct (Z.leb_spec (key y) (key x)); [done|lia].
Qed.

(** X9: the sort of [_get_storys] is stable: the stories with one and the
    same [dt_published] come out in the order in which their entries
    arrived. *)
Theorem get_storys_stable (entries : list (gmap string Val)) (w : W) (dt : Z) :
  ∃ storys,
    _get_storys entries w = (inr storys, [], w)
    ∧ filter (λ story, story_dt_published story = dt) storys
      = filter (λ story, story_dt_published story = dt)
          ((λ data, get_story_of_feed_entry data (timezone_now w)) <$> entries).
Proof.
  eexists. split; [reflexivity|]. apply sorted_reverse_stable.
Qed.

(** X10: entries whose stories already arrive newest first are returned
    in exactly the order they arrived. *)
Theorem get_storys_keeps_descending (entries : list (gmap string Val)) (w : W) :
  let storys := (λ data, get_story_of_feed_entry data (timezone_now w)) <$> entries in
  StronglySorted (key_ge story_dt_published) storys →
  _get_storys entries w = (inr storys, [], w).
Proof.
  intros storys Hsorted. unfold _get_storys, bind, ask, ret. simpl.
  fold storys. by rewrite sorted_reverse_sorted_id.
Qed.

(** ** Story fetch *)

(** One round of the loop of [_fetch_story]. *)
Lemma _fetch_story_loop_step options (feed_id offset : Z) (use_proxy : bool)
    (i : Z) (iters : list Z) (url : Url) prev (w : W) response w1 :
  async_reader_read options url use_proxy w = (response, w1) →
  let url1 := url_after_read url response in
  let read := ERead url ∅ use_proxy response in
  _fetch_story_loop options feed_id offset use_proxy (i :: iters) url prev w
  = match retrieved_content response with
    | None => (inr (url1, None, response), [read], w1)
    | Some content =>
        match redirect_to_follow url1 content with
        | None =>
            (inr (url1, Some content, response),
             read :: decode_log url1 response, w1)
        | Some target =>
            let '(r, t, w') :=
              _fetch_story_loop options feed_id offset use_proxy iters target
                (Some (content, response)) w1 in
            (r, read :: decode_log url1 response ++ t, w')
        end
    end.
Proof.
  intros Hread url1 read. cbn [_fetch_story_loop].
  unfold bind at 1, perform at 1. rewrite Hread.
  subst url1 read. unfold url_after_read.
  unfold retrieved_content, decode_log, redirect_to_follow.
  destruct (resp_ok response && bytes_truthy (resp_content response));
    [|reflexivity].
  cbn [negb]. unfold try_except, lift, bind, log, emit, ret.
  destruct (resp_url response) as [u|]; [destruct (str_truthy u)|];
    cbv beta iota;
    (destruct (bytes_decode (resp_content response) (resp_encoding response))
       as [msg|content]; cbn [is_unicode_error];
     (destruct (get_html_redirect_url _) as [html_redirect|]; [|reflexivity]);
     match goal with
     | |- context [negb (str_truthy html_redirect) || ?b] =>
         destruct (negb (str_truthy html_redirect) || b); [reflexivity|]
     end;
     by destruct (_fetch_story_loop _ _ _ _ _ _ _ _) as [[r t] w']).
Qed.

(** X11: a story read that fails or brings no body ends the fetch at once:
    one read, no content, the response as it came, and as URL the
    response's own URL if it has one, else the URL asked. *)
Theorem fetch_story_stops_on_failure options (feed_id offset : Z) (url : Url)
    (use_proxy : bool) (w : W) response w1 :
  async_reader_read options url use_proxy w = (response, w1) →
  resp_ok response = false ∨ resp_content response = [] →
  _fetch_story options feed_id offset url use_proxy w
  = (inr (match resp_url response with
          | Some u => if str_truthy u then u else url
          | None => url
          end, None, response),
     [ERead url ∅ use_proxy response], w1).
Proof.
  intros Hread Hfail. unfold _fetch_story.
  rewrite (_fetch_story_loop_step _ _ _ _ _ _ _ _ _ _ _ Hread).
  unfold retrieved_content.
  assert (resp_ok response && bytes_truthy (resp_content response) = false) as ->.
  { destruct Hfail as [-> | ->]; [done|]. by rewrite andb_false_r. }
  reflexivity.
Qed.

(** X12: a page without redirect hint, with an empty one, or with one that
    points to the page itself, is not fetched again: the fetch ends after
    this one read with the decoded page. *)
Theorem fetch_story_stops_without_redirect options (feed_id offset : Z)
    (url : Url) (use_proxy : bool) (w : W) response w1 content :
  async_reader_read options url use_proxy w = (response, w1) →
  retrieved_content response = Some content →
  let url1 := url_after_read url response in
  get_html_redirect_url content = None
  ∨ get_html_redirect_url content = Some ""
  ∨ get_html_redirect_url content = Some url1 →
  ∃ t,
    _fetch_story options feed_id offset url use_proxy w
    = (inr (url1, Some content, response), t, w1)
    ∧ reads t = [(use_proxy, response)].
Proof.
  intros Hread Hcontent url1 Hhint. unfold _fetch_story.
  rewrite (_fetch_story_loop_step _ _ _ _ _ _ _ _ _ _ _ Hread). fold url1.
  rewrite Hcontent.
  assert (redirect_to_follow url1 content = None) as ->.
  { unfold redirect_to_follow.
    destruct Hhint as [-> | [-> | ->]]; [done..|].
    by rewrite bool_decide_true, orb_true_r. }
  eexists. split; [reflexivity|].
  unfold decode_log. by destruct (bytes_decode _ _).
Qed.

(** X13: a page that redirects elsewhere is followed once: the second read
    goes to the redirect target with the same proxy flag, and the fetch
    returns the response and content of that second read.  A further
    redirect found in the second page is not fetched; it is only handed
    back as the URL. *)
Theorem fetch_story_follows_one_redirect options (feed_id offset : Z)
    (url : Url) (use_proxy : bool) (w : W) response w1 content target
    response2 w2 :
  async_reader_read options url use_proxy w = (response, w1) →
  retrieved_content response = Some content →
  redirect_to_follow (url_after_read url response) content = Some target →
  async_reader_read options target use_proxy w1 = (response2, w2) →
  let url2 := url_after_read target response2 in
  ∃ t,
    _fetch_story options feed_id offset url use_proxy w
    = (inr (match retrieved_content response2 with
            | Some content2 => default url2 (redirect_to_follow url2 content2)
            | None => url2
            end, retrieved_content response2, response2), t, w2)
    ∧ read_requests t = [(url, ∅, use_proxy); (target, ∅, use_proxy)]
    ∧ reads t = [(use_proxy, response); (use_proxy, response2)].
Proof.
  intros Hread Hcontent Hredirect Hread2 url2. unfold _fetch_story.
  rewrite (_fetch_story_loop_step _ _ _ _ _ _ _ _ _ _ _ Hread).
  rewrite Hcontent, Hredirect.
  rewrite (_fetch_story_loop_step _ _ _ _ _ _ _ _ _ _ _ Hread2). fold url2.
  assert (∀ u r, reads (decode_log u r) = [] ∧ read_requests (decode_log u r) = [])
    as Hquiet.
  { intros u r. unfold decode_log. by destruct (bytes_decode _ _). }
  destruct (retrieved_content response2) as [content2|].
  - destruct (redirect_to_follow url2 content2) as [target2|]; simpl;
      (eexists; split; [reflexivity|]);
      rewrite ?app_nil_r;
      change (?a :: ?l ++ ?b :: ?l') with ([a] ++ l ++ [b] ++ l');
      rewrite !reads_app, !read_requests_app;
      rewrite !(proj1 (Hquiet _ _)), !(proj2 (Hquiet _ _)); done.
  - eexists. split; [reflexivity|].
    change (?a :: ?l ++ [?b]) with ([a] ++ l ++ [b]).
    rewrite !reads_app, !read_requests_app.
    rewrite !(proj1 (Hquiet _ _)), !(proj2 (Hquiet _ _)). done.
Qed.

Lemma decode_log_quiet (url : Url) (response : FeedResponse) :
  reads (decode_log url response) = []
  ∧ read_requests (decode_log url response) = []
  ∧ sink_calls (decode_log url response) = [].
Proof. unfold decode_log. by destruct (bytes_decode _ _). Qed.

Lemma _fetch_story_loop_requests options (feed_id offset : Z) (use_proxy : bool)
    (iters : list Z) (url : Url) prev (w : W) :
  let t := (_fetch_story_loop options feed_id offset use_proxy iters url prev w).1.2 in
  Forall (λ rq, rq.1.2 = ∅ ∧ rq.2 = use_proxy) (read_requests t)
  ∧ (iters ≠ [] → head (read_requests t) = Some (url, ∅, use_proxy)).
Proof.
  revert url prev w. induction iters as [|i iters IH]; intros url prev w t; subst t.
  - simpl. destruct prev as [[c r]|]; simpl; by split.
  - destruct (async_reader_read options url use_proxy w) as [response w1] eqn:Hread.
    rewrite (_fetch_story_loop_step _ _ _ _ _ _ _ _ _ _ _ Hread).
    destruct (decode_log_quiet (url_after_read url response) response)
      as (_ & Hq & _).
    destruct (retrieved_content response) as [content|]; [|by repeat constructor].
    destruct (redirect_to_follow _ content) as [target|].
    + specialize (IH target (Some (content, response)) w1).
      destruct (_fetch_story_loop _ _ _ _ iters _ _ _) as [[r t] w'].
      cbn [fst snd] in *. destruct IH as [IH _].
      rewrite read_requests_read, read_requests_app, Hq.
      split; [by constructor|done].
    + cbn [fst snd]. rewrite read_requests_read, Hq.
      by repeat constructor.
Qed.

(** X14: a story is read with the proxy only if the caller asked for it,
    the URL is not DNS-resolved and the reader has a proxy; the flag so
    decided is used for every read of the fetch, the first of which goes to
    the URL given.  Unlike the feed sync, a proxy tag on the URL plays no
    part and no read is retried through the proxy. *)
Theorem fetch_story_proxy_flag (feed_id offset : Z) (url : Url)
    (use_proxy : bool) (w : W) :
  let options := <["request_timeout" := VInt 25]> (get_proxy_options url) in
  let flag := (if is_resolved_url url w then false else use_proxy) && has_proxy options in
  let requests :=
    read_requests (_async_fetch_story_impl feed_id offset url use_proxy w).1.2 in
  Forall (λ rq, rq.1.2 = ∅ ∧ rq.2 = flag) requests
  ∧ head requests = Some (url, ∅, flag)
  ∧ (is_resolved_url url w = true ∨ use_proxy = false ∨ has_proxy options = false →
     Forall (λ rq, rq.2 = false) requests).
Proof.
  intros options flag requests. subst requests.
  unfold _async_fetch_story_impl, bind at 1, ask. fold options. fold flag.
  pose proof (_fetch_story_loop_requests options feed_id offset flag [0; 1] url None w)
    as [Hall Hhead].
  unfold bind, _fetch_story.
  destruct (_fetch_story_loop _ _ _ _ _ _ _ _) as [[[e|[[u c] r]] t] w'];
    simpl in *; rewrite ?app_nil_r;
    (split; [exact Hall|]; split; [by apply Hhead|]);
    (intros Hoff; assert (flag = false) as Hflag;
     [ subst flag; destruct Hoff as [-> | [-> | ->]];
       [done | by destruct (is_resolved_url url w) | by rewrite andb_false_r]
     | eapply Forall_impl; [exact Hall|]; intros rq [_ ->]; exact Hflag ]).
Qed.

(** ** Story enrichment *)

Lemma _process_story_webpage_shape (feed_id offset : Z) (url : Url)
    (text : string) (num_sub_sentences : option Z) (w : W) :
  let DEFAULT_RESULT : gmap string Val :=
    <["feed_id" := VInt feed_id]>
      (<["offset" := VInt offset]> (<["url" := VStr url]> ∅)) in
  let extracted :=
    process_story_links (story_readability (story_html_clean (str_strip text))) url in
  let content_info := StoryContentInfo extracted in
  let text_content := shorten (info_text content_info) _MAX_STORY_CONTENT_LENGTH in
  let num_sentences := Z.of_nat (length (split_sentences text_content)) in
  let summary := shorten text_content _MAX_STORY_SUMMARY_LENGTH in
  let rejected :=
    match num_sub_sentences with
    | Some hint => negb (is_fulltext_content content_info) && (num_sentences <=? hint)
    | None => false
    end in
  let payload : gmap string Val :=
    <["content" := VStr (if _MAX_STORY_CONTENT_LENGTH <? len extracted
                         then text_content else extracted)]>
      (<["summary" := VStr summary]>
         (<["sentence_count" := VInt num_sentences]> DEFAULT_RESULT)) in
  ∃ t,
    sink_calls t = []
    ∧ _process_story_webpage feed_id offset url text num_sub_sentences w
      = if negb (str_truthy (str_strip text)) then (inr DEFAULT_RESULT, [], w)
        else if rejected || negb (str_truthy summary) then (inr DEFAULT_RESULT, t, w)
        else (inr (<["accept" := default VNone
                                   ((service_call (update_story payload) w).1 !! "accept")]>
                     payload),
              t ++ [ECall (update_story payload)],
              (service_call (update_story payload) w).2).
Proof.
  intros DEFAULT_RESULT extracted content_info text_content num_sentences summary
    rejected payload.
  unfold _process_story_webpage.
  fold DEFAULT_RESULT extracted. fold content_info. fold text_content.
  fold num_sentences. fold summary. fold rejected.
  set (content := if _MAX_STORY_CONTENT_LENGTH <? len extracted
                  then text_content else extracted) in *.
  set (t := if _MAX_STORY_CONTENT_LENGTH <? len extracted
            then [ELog (LogOnlyPlainText feed_id offset (len extracted) url)]
            else []).
  exists t. split. { subst t. by destruct (_ <? _). }
  destruct (negb (str_truthy (str_strip text))); [reflexivity|].
  unfold bind at 1.
  assert ((if _MAX_STORY_CONTENT_LENGTH <? len extracted
           then log (LogOnlyPlainText feed_id offset (len extracted) url) ;;;
                ret text_content
           else ret extracted) w = (inr content, t, w)) as ->.
  { subst content t. by destruct (_ <? _). }
  destruct rejected; simpl; [by rewrite ?app_nil_r|].
  destruct (negb (str_truthy summary)); simpl; [by rewrite ?app_nil_r|].
  fold payload. unfold bind, call, perform, ret.
  destruct (service_call (update_story payload) w) as [res w']. simpl.
  by rewrite ?app_nil_r.
Qed.

(** X15: [_process_story_webpage] returns content exactly when it has
    reported it: either it makes no sink call and returns a result without
    content, summary and acceptance, or it makes one [update_story] call
    whose payload carries the content, summary and sentence count it
    returns, and adds to the result the [accept] entry of the sink's
    answer, [None] when the answer has none. *)
Theorem process_story_webpage_returns_what_it_reports (feed_id offset : Z)
    (url : Url) (text : string) (num_sub_sentences : option Z) (w : W) :
  ∃ result t w',
    _process_story_webpage feed_id offset url text num_sub_sentences w
    = (inr result, t, w')
    ∧ (sink_calls t = [] ∧ w' = w
       ∧ result !! "content" = None ∧ result !! "summary" = None
       ∧ result !! "sentence_count" = None ∧ result !! "accept" = None
       ∨ ∃ payload,
           sink_calls t = [update_story payload]
           ∧ w' = (service_call (update_story payload) w).2
           ∧ is_Some (payload !! "content")
           ∧ result !! "content" = payload !! "content"
           ∧ result !! "summary" = payload !! "summary"
           ∧ result !! "sentence_count" = payload !! "sentence_count"
           ∧ payload !! "feed_id" = Some (VInt feed_id)
           ∧ payload !! "offset" = Some (VInt offset)
           ∧ payload !! "url" = Some (VStr url)
           ∧ payload !! "accept" = None
           ∧ result !! "accept"
             = Some (default VNone
                       ((service_call (update_story payload) w).1 !! "accept"))).
Proof.
  destruct (_process_story_webpage_shape feed_id offset url text num_sub_sentences w)
    as (t & Hcalls & Hrun).
  rewrite Hrun. clear Hrun.
  destruct (negb (str_truthy (str_strip text))).
  { eexists _, _, _. split; [reflexivity|]. left. by simplify_map_eq. }
  destruct (_ || _).
  { eexists _, _, _. split; [reflexivity|]. left. by simplify_map_eq. }
  eexists _, _, _. split; [reflexivity|]. right. eexists.
  split. { by rewrite sink_calls_app, Hcalls. }
  split; [reflexivity|].
  repeat split; by simplify_map_eq.
Qed.

(** X16: text that is not blank and yields a non-empty summary is accepted
    whenever the caller gives no hint, or the extraction is classified as
    full text, or it has more sentences than the hint: the content (cut
    down to plain text when over the content ceiling), the summary and the
    sentence count are reported in one [update_story] call and returned. *)
Theorem process_story_webpage_accepts (feed_id offset : Z) (url : Url)
    (text : string) (num_sub_sentences : option Z) (w : W) :
  let extracted :=
    process_story_links (story_readability (story_html_clean (str_strip text))) url in
  let content_info := StoryContentInfo extracted in
  let text_content := shorten (info_text content_info) _MAX_STORY_CONTENT_LENGTH in
  let num_sentences := Z.of_nat (length (split_sentences text_content)) in
  let summary := shorten text_content _MAX_STORY_SUMMARY_LENGTH in
  let content := if _MAX_STORY_CONTENT_LENGTH <? len extracted
                 then text_content else extracted in
  str_strip text ≠ "" →
  summary ≠ "" →
  num_sub_sentences = None
  ∨ is_fulltext_content content_info = true
  ∨ (∃ hint, num_sub_sentences = Some hint ∧ hint < num_sentences) →
  ∃ result t w' payload,
    _process_story_webpage feed_id offset url text num_sub_sentences w
    = (inr result, t, w')
    ∧ sink_calls t = [update_story payload]
    ∧ payload !! "content" = Some (VStr content)
    ∧ payload !! "summary" = Some (VStr summary)
    ∧ payload !! "sentence_count" = Some (VInt num_sentences)
    ∧ result !! "content" = Some (VStr content)
    ∧ result !! "summary" = Some (VStr summary)
    ∧ result !! "sentence_count" = Some (VInt num_sentences).
Proof.
  intros extracted content_info text_content num_sentences summary content
    Htext Hsummary Haccept.
  destruct (_process_story_webpage_shape feed_id offset url text num_sub_sentences w)
    as (t & Hcalls & Hrun).
  rewrite Hrun. clear Hrun.
  fold extracted content_info text_content num_sentences summary content.
  assert (∀ s, s ≠ "" → negb (str_truthy s) = false) as Htruthy.
  { by intros [|c s]. }
  rewrite (Htruthy _ Htext), (Htruthy _ Hsummary), orb_false_r.
  assert (match num_sub_sentences with
          | Some hint =>
              negb (is_fulltext_content content_info) && (num_sentences <=? hint)
          | None => false
          end = false) as ->.
  { destruct Haccept as [-> | [-> | (hint & -> & Hlt)]]; [done| |].
    - by destruct num_sub_sentences.
    - apply andb_false_iff. right. by apply Z.leb_gt. }
  eexists _, _, _, _. split; [reflexivity|].
  split. { by rewrite sink_calls_app, Hcalls. }
  repeat split; by simplify_map_eq.
Qed.

(** X17: a page that is blank after stripping, or whose extracted text
    gives an empty summary, yields the content-less default result and no
    report; for a blank page nothing at all is done. *)
Theorem process_story_webpage_nothing_usable (feed_id offset : Z) (url : Url)
    (text : string) (num_sub_sentences : option Z) (w : W) :
  let extracted :=
    process_story_links (story_readability (story_html_clean (str_strip text))) url in
  let text_content :=
    shorten (info_text (StoryContentInfo extracted)) _MAX_STORY_CONTENT_LENGTH in
  let DEFAULT_RESULT : gmap string Val :=
    <["feed_id" := VInt feed_id]>
      (<["offset" := VInt offset]> (<["url" := VStr url]> ∅)) in
  str_strip text = ""
  ∨ shorten text_content _MAX_STORY_SUMMARY_LENGTH = "" →
  ∃ t,
    _process_story_webpage feed_id offset url text num_sub_sentences w
    = (inr DEFAULT_RESULT, t, w)
    ∧ sink_calls t = []
    ∧ (str_strip text = "" → t = []).
Proof.
  intros extracted text_content DEFAULT_RESULT Hnothing.
  destruct (_process_story_webpage_shape feed_id offset url text num_sub_sentences w)
    as (t & Hcalls & Hrun).
  rewrite Hrun. clear Hrun. fold extracted text_content DEFAULT_RESULT.
  destruct (str_strip text) as [|c s] eqn:Hstrip; simpl.
  { by exists []. }
  destruct Hnothing as [? | ->]; [done|]. simpl. rewrite orb_true_r.
  exists t. by repeat split.
Qed.

(** X18: when the fetch retrieved no content, [fetch_story] returns just
    the five identifying entries (feed id, offset, URL, response status and
    the proxy flag of the response) without running the extraction and
    without any report to the result sink; this is a result, not an
    error. *)
Theorem fetch_story_without_content (feed_id offset : Z) (url : Url)
    (use_proxy : bool) (num_sub_sentences : option Z) (w : W) res t0 w0 :
  _async_fetch_story_impl feed_id offset url use_proxy w = (inr res, t0, w0) →
  res_content res = None ∨ res_content res = Some "" →
  let result : gmap string Val :=
    <["feed_id" := VInt feed_id]>
      (<["offset" := VInt offset]>
         (<["url" := VStr url]>
            (<["response_status" := VInt (resp_status (res_response res))]>
               (<["use_proxy" := VBool (resp_use_proxy (res_response res))]> ∅)))) in
  fetch_story feed_id offset url use_proxy num_sub_sentences w = (inr result, t0, w0)
  ∧ sink_calls t0 = []
  ∧ dom result
    = ({["feed_id"; "offset"; "url"; "response_status"; "use_proxy"]} : gset string).
Proof.
  intros Himpl Hnone result.
  destruct (_async_fetch_story_impl_run feed_id offset url use_proxy w)
    as (res' & t0' & w0' & Himpl' & Hcalls & _).
  rewrite Himpl in Himpl'. injection Himpl' as <- <- <-.
  unfold fetch_story, bind at 1. rewrite Himpl. fold result.
  split; [|split; [exact Hcalls|]].
  - destruct Hnone as [-> | ->]; unfold ret; simpl; by rewrite app_nil_r.
  - subst result. rewrite !dom_insert_L, dom_empty_L. set_solver.
Qed.

(** X19: whatever happens, the result of [fetch_story] carries the feed
    id and the offset it was given and the status and proxy flag of the
    last response, none of which the extraction can overwrite; and the
    whole invocation makes at most one result-sink call, an
    [update_story]. *)
Theorem fetch_story_identifies_its_result (feed_id offset : Z) (url : Url)
    (use_proxy : bool) (num_sub_sentences : option Z) (w : W) :
  ∃ res t0 w0 result t w',
    _async_fetch_story_impl feed_id offset url use_proxy w = (inr res, t0, w0)
    ∧ fetch_story feed_id offset url use_proxy num_sub_sentences w
      = (inr result, t, w')
    ∧ result !! "feed_id" = Some (VInt feed_id)
    ∧ result !! "offset" = Some (VInt offset)
    ∧ result !! "response_status" = Some (VInt (resp_status (res_response res)))
    ∧ result !! "use_proxy" = Some (VBool (resp_use_proxy (res_response res)))
    ∧ (sink_calls t = [] ∨ ∃ payload, sink_calls t = [update_story payload]).
Proof.
  destruct (_async_fetch_story_impl_run feed_id offset url use_proxy w)
    as (res & t0 & w0 & Himpl & Hcalls0 & _).
  exists res, t0, w0.
  enough (∃ result t w',
            fetch_story feed_id offset url use_proxy num_sub_sentences w
            = (inr result, t, w')
            ∧ result !! "feed_id" = Some (VInt feed_id)
            ∧ result !! "offset" = Some (VInt offset)
            ∧ result !! "response_status"
              = Some (VInt (resp_status (res_response res)))
            ∧ result !! "use_proxy"
              = Some (VBool (resp_use_proxy (res_response res)))
            ∧ (sink_calls t = [] ∨ ∃ payload, sink_calls t = [update_story payload]))
    as (result & t & w' & Hrest).
  { by exists result, t, w'. }
  unfold fetch_story, bind at 1. rewrite Himpl.
  set (DEFAULT_RESULT :=
         <["feed_id" := VInt feed_id]>
           (<["offset" := VInt offset]>
              (<["url" := VStr url]>
                 (<["response_status" := VInt (resp_status (res_response res))]>
                    (<["use_proxy" := VBool (resp_use_proxy (res_response res))]>
                       (∅ : gmap string Val)))))).
  assert (DEFAULT_RESULT !! "feed_id" = Some (VInt feed_id)
          ∧ DEFAULT_RESULT !! "offset" = Some (VInt offset)
          ∧ DEFAULT_RESULT !! "response_status"
            = Some (VInt (resp_status (res_response res)))
          ∧ DEFAULT_RESULT !! "use_proxy"
            = Some (VBool (resp_use_proxy (res_response res))))
    as (Hid & Hoffset & Hstatus & Hproxy).
  { subst DEFAULT_RESULT. by simplify_map_eq. }
  assert (∀ (r : gmap string Val) ts (w' : W),
            (sink_calls ts = [] ∨ ∃ payload, sink_calls ts = [update_story payload]) →
            ∃ result t (w'' : W),
              (inr (DEFAULT_RESULT ∪ r) : Exn + gmap string Val, ts, w')
              = (inr result, t, w'')
              ∧ result !! "feed_id" = Some (VInt feed_id)
              ∧ result !! "offset" = Some (VInt offset)
              ∧ result !! "response_status"
                = Some (VInt (resp_status (res_response res)))
              ∧ result !! "use_proxy"
                = Some (VBool (resp_use_proxy (res_response res)))
              ∧ (sink_calls t = [] ∨ ∃ payload, sink_calls t = [update_story payload]))
    as Hmerged.
  { intros r ts w' Hts. eexists _, _, _. split; [reflexivity|].
    by do 4 (split; [by apply lookup_union_Some_l|]). }
  assert (DEFAULT_RESULT ∪ ∅ = DEFAULT_RESULT) as Hempty by apply (right_id_L ∅ (∪)).
  destruct (res_content res) as [content|].
  2:{ unfold ret. rewrite <- Hempty. apply Hmerged. left. by rewrite app_nil_r. }
  destruct (negb (str_truthy content)).
  { unfold ret. rewrite <- Hempty. apply Hmerged. left. by rewrite app_nil_r. }
  destruct (limit_story_html_run feed_id offset url content w0)
    as (limited & t1 & Hlimit & Hcalls1 & _).
  unfold bind at 1. rewrite Hlimit.
  destruct (_process_story_webpage_shape feed_id offset url limited
              num_sub_sentences w0) as (t2 & Hcalls2 & Hprocess).
  unfold bind, ret. rewrite Hprocess. clear Hprocess.
  destruct (negb (str_truthy (str_strip limited))).
  { apply Hmerged. left. by rewrite !sink_calls_app, Hcalls0, Hcalls1. }
  destruct (_ || _).
  { apply Hmerged. left. by rewrite !sink_calls_app, Hcalls0, Hcalls1, Hcalls2. }
  apply Hmerged. right. eexists.
  by rewrite !sink_calls_app, Hcalls0, Hcalls1, Hcalls2.
Qed.

End WorkerMore.

(** * The canned world at work, continued *)

Section MoreExamples.
#[local] Existing Instance Fake.world.
#[local] Existing Instance Fake.feedlib.
#[local] Existing Instance Fake.extractor.

(** A forced refresh sends no conditional tokens. *)
Lemma sync_feed_conditional_tokens_witness :
  Forall (λ rq : Url * gmap string Val * bool, rq.1.2 = ∅)
    (read_requests
       (sync_feed 7 "http://news.example/feed" false "" None (Some "etag-1")
          (Some "Mon, 01 Jan 2024") true ([] : list Q)).1.2).
Proof.
  exact (proj1 (proj2 (sync_feed_conditional_tokens 7 "http://news.example/feed"
                         false "" None (Some "etag-1") (Some "Mon, 01 Jan 2024")
                         true ([] : list Q))) eq_refl).
Defined.

(** A page that is no feed is reported as an error with the parser's
    message. *)
Lemma sync_feed_raw_parse_failure_witness :
  let url := "http://hop.example/feed" in
  let params : gmap string Val :=
    <["etag" := VNone]> (<["last_modified" := VNone]> ∅) in
  let response := Fake.site url false in
  let t1 := [ERead url params false response] in
  sync_feed_read url false None None false [] = (inr response, t1, [])
  ∧ RawFeedParser_parse response = inl "not a feed"
  ∧ ∃ w2,
      sync_feed 7 url false "" None None None false ([] : list Q)
      = (inr tt,
         t1 ++ [ERawParse response;
                ELog (LogRawParseFailed 7 url (FeedParserError "not a feed"));
                ECall (update_feed_info 7 (Some ERROR) 200 (Some "not a feed"))],
         w2).
Proof.
  intros url params response t1.
  split; [vm_compute; reflexivity|]. split; [vm_compute; reflexivity|].
  refine (sync_feed_raw_parse_failure 7 url false "" None None None false
            ([] : list Q) response t1 [] "not a feed" _ _ _ _ _).
  - vm_compute. reflexivity.
  - reflexivity.
  - discriminate.
  - right. discriminate.
  - vm_compute. reflexivity.
Defined.

(** A feed that parses and validates is sent as [update_feed]. *)
Lemma sync_feed_normalization_outcome_witness :
  let url := "http://news.example/feed" in
  let params : gmap string Val :=
    <["etag" := VNone]> (<["last_modified" := VNone]> ∅) in
  let response := Fake.site url false in
  let t1 := [ERead url params false response] in
  let raw_result := {| raw_storys := []; raw_warnings := [] |} in
  sync_feed_read url false None None false [] = (inr response, t1, [])
  ∧ RawFeedParser_parse response = inr raw_result
  ∧ ∃ feed,
      sink_calls (sync_feed 7 url false "" None None None false ([] : list Q)).1.2
      = [update_feed 7 feed false].
Proof.
  intros url params response t1 raw_result.
  split; [vm_compute; reflexivity|]. split; [vm_compute; reflexivity|].
  destruct (sync_feed_normalization_outcome 7 url false "" None None None false
              ([] : list Q) response t1 [] raw_result)
    as (t & w2 & c & Hrun & Hcalls & _ & Hc).
  - vm_compute. reflexivity.
  - reflexivity.
  - discriminate.
  - right. discriminate.
  - vm_compute. reflexivity.
  - vm_compute in Hc. eexists. rewrite Hrun. simpl.
    rewrite sink_calls_app, Hcalls, Hc. reflexivity.
Defined.

(** A forced refresh parses again although the hash is the prior one. *)
Lemma sync_feed_refresh_always_parses_witness :
  let url := "http://news.example/feed" in
  let response := Fake.site url false in
  let t1 := [ERead url ∅ false response] in
  sync_feed_read url false None None true [] = (inr response, t1, [])
  ∧ ∃ t w2,
      sync_feed 7 url false "" (Some (compute_hash_base64 (resp_content response)))
        None None true ([] : list Q)
      = (inr tt, t1 ++ ERawParse response :: t, w2).
Proof.
  intros url response t1. split; [vm_compute; reflexivity|].
  apply (sync_feed_refresh_always_parses 7 url false "" None None
           ([] : list Q) response t1 []).
  - vm_compute. reflexivity.
  - reflexivity.
  - discriminate.
Defined.

(** An empty checksum gives what a refresh gives. *)
Lemma parse_found_history_witness :
  let found := (Fake.site "http://news.example/feed" false,
                {| raw_storys := []; raw_warnings := [] |}) in
  UrlsafeBase64_decode (Some "") = Some []
  ∧ _parse_found found (Some "") false ([] : list Q)
    = _parse_found found (Some "") true ([] : list Q).
Proof.
  intros found. split; [reflexivity|].
  apply (proj1 (proj2 (parse_found_history found (Some "") None false ([] : list Q)))).
  right. reflexivity.
Defined.

(** Entries that arrive newest first stay as they are. *)
Lemma get_storys_keeps_descending_witness :
  let entries : list (gmap string Val) :=
    [ <["dt_published" := VInt 30]> ∅; <["dt_published" := VInt 20]> ∅;
      <["dt_published" := VInt 20]> ∅ ] in
  let storys := (λ data, get_story_of_feed_entry data 1700000000) <$> entries in
  StronglySorted (key_ge story_dt_published) storys
  ∧ _get_storys entries ([] : list Q) = (inr storys, [], []).
Proof.
  intros entries storys.
  assert (StronglySorted (key_ge story_dt_published) storys) as Hsorted.
  { repeat constructor; vm_compute; discriminate. }
  split; [exact Hsorted|].
  exact (get_storys_keeps_descending entries ([] : list Q) Hsorted).
Defined.

(** A story page that is down: one read, no content. *)
Lemma fetch_story_stops_on_failure_witness :
  let url := "http://down.example/feed" in
  let response := Fake.site url false in
  async_reader_read ∅ url false ([] : list Q) = (response, [])
  ∧ resp_ok response = false
  ∧ _fetch_story ∅ 7 0 url false ([] : list Q)
    = (inr (url, None, response), [ERead url ∅ false response], []).
Proof.
  intros url response. split; [reflexivity|]. split; [reflexivity|].
  apply (fetch_story_stops_on_failure ∅ 7 0 url false ([] : list Q) response []).
  - reflexivity.
  - left. reflexivity.
Defined.

(** A plain story page: one read, its content. *)
Lemma fetch_story_stops_without_redirect_witness :
  let url := "http://story.example/a" in
  let response := Fake.site url false in
  let content := "<p>http://story.example/a.</p>" in
  retrieved_content response = Some content
  ∧ get_html_redirect_url content = None
  ∧ ∃ t,
      _fetch_story ∅ 7 0 url false ([] : list Q)
      = (inr (url, Some content, response), t, [])
      ∧ reads t = [(false, response)].
Proof.
  intros url response content.
  split; [vm_compute; reflexivity|]. split; [reflexivity|].
  apply (fetch_story_stops_without_redirect ∅ 7 0 url false ([] : list Q)
           response [] content).
  - reflexivity.
  - vm_compute. reflexivity.
  - left. reflexivity.
Defined.

(** A page that redirects: the second read goes to the target. *)
Lemma fetch_story_follows_one_redirect_witness :
  let url := "http://hop.example/a" in
  let target := "http://hop.example/a+" in
  let response := Fake.site url false in
  let response2 := Fake.site target false in
  retrieved_content response = Some ("goto " +:+ target)
  ∧ redirect_to_follow url ("goto " +:+ target) = Some target
  ∧ ∃ final t,
      _fetch_story ∅ 7 0 url false ([] : list Q)
      = (inr (final, retrieved_content response2, response2), t, [])
      ∧ read_requests t = [(url, ∅, false); (target, ∅, false)].
Proof.
  intros url target response response2.
  split; [vm_compute; reflexivity|]. split; [vm_compute; reflexivity|].
  destruct (fetch_story_follows_one_redirect ∅ 7 0 url false ([] : list Q)
              response [] ("goto " +:+ target) target response2 [])
    as (t & Hrun & Hrequests & _).
  - reflexivity.
  - vm_compute. reflexivity.
  - vm_compute. reflexivity.
  - reflexivity.
  - eexists _, t. split; [exact Hrun | exact Hrequests].
Defined.

(** The story of a resolved URL is read without proxy although the caller
    asked for one. *)
Lemma fetch_story_proxy_flag_witness :
  Forall (λ rq : Url * gmap string Val * bool, rq.2 = false)
    (read_requests (_async_fetch_story_impl 7 0 Fake.resolved true ([] : list Q)).1.2).
Proof.
  apply (proj2 (proj2 (fetch_story_proxy_flag 7 0 Fake.resolved true ([] : list Q)))).
  left. reflexivity.
Defined.

(** Two sentences and no hint: the page is accepted. *)
Lemma process_story_webpage_accepts_witness :
  ∃ result t w' payload,
    _process_story_webpage 7 0 "http://story.example/a" "One. Two." None
      ([] : list Q)
    = (inr result, t, w')
    ∧ sink_calls t = [update_story payload]
    ∧ result !! "content" = Some (VStr "One. Two.")
    ∧ result !! "sentence_count" = Some (VInt 2).
Proof.
  destruct (process_story_webpage_accepts 7 0 "http://story.example/a"
              "One. Two." None ([] : list Q))
    as (result & t & w' & payload & Hrun & Hcalls & _ & _ & _ & Hc & _ & Hn).
  - discriminate.
  - vm_compute. discriminate.
  - left. reflexivity.
  - exists result, t, w', payload.
    split; [exact Hrun|]. split; [exact Hcalls|]. split; [exact Hc | exact Hn].
Defined.

(** An empty page: nothing is done. *)
Lemma process_story_webpage_nothing_usable_witness :
  ∃ t,
    _process_story_webpage 7 0 "http://story.example/a" "" (Some 3) ([] : list Q)
    = (inr (<["feed_id" := VInt 7]>
              (<["offset" := VInt 0]>
                 (<["url" := VStr "http://story.example/a"]> ∅))), t, [])
    ∧ t = [].
Proof.
  destruct (process_story_webpage_nothing_usable 7 0 "http://story.example/a"
              "" (Some 3) ([] : list Q))
    as (t & Hrun & _ & Hquiet).
  - left. reflexivity.
  - exists t. split; [exact Hrun|]. apply Hquiet. reflexivity.
Defined.

(** A story page that is down: the result has five entries and no content. *)
Lemma fetch_story_without_content_witness :
  let url := "http://down.example/feed" in
  let res := {| res_url := url; res_content := None;
                res_response := Fake.site url false |} in
  let t0 := [ERead url ∅ false (Fake.site url false)] in
  _async_fetch_story_impl 7 0 url false ([] : list Q) = (inr res, t0, [])
  ∧ fetch_story 7 0 url false (Some 3) ([] : list Q)
    = (inr (<["feed_id" := VInt 7]>
              (<["offset" := VInt 0]>
                 (<["url" := VStr url]>
                    (<["response_status" := VInt 503]>
                       (<["use_proxy" := VBool false]> ∅))))), t0, []).
Proof.
  intros url res t0. split; [vm_compute; reflexivity|].
  apply (fetch_story_without_content 7 0 url false (Some 3) ([] : list Q) res t0 []).
  - vm_compute. reflexivity.
  - left. reflexivity.
Defined.

End MoreExamples.

(** * Properties of the feed views *)

Module ApiFacts.
Import Api.

Section ViewFacts.
Context {W : Type} `{!Backend W}.

Lemma py_take_length {A} (n : Z) (l : list A) :
  0 ≤ n → (Z.of_nat (length (py_take n l)) ≤ n) ∧ py_take n l `prefix_of` l.
Proof.
  intros Hn. unfold py_take. destruct (Z.leb_spec 0 n) as [_|?]; [|lia].
  split; [rewrite length_take; lia | apply prefix_take].
Qed.

(** X20: [feed_query] looks at no more than [MAX_FEED_COUNT] hints: the
    hints beyond that are dropped before anything else, the ids of the
    remaining ones are checked against the user, and only then is the
    storage queried, with exactly those hints.  When the check fails the
    storage is not queried at all.  Without hints nothing is checked. *)
Theorem feed_query_checks_capped_hints (request : Request)
    (hints : option (list Hint)) (detail : Val) (w : W) (user : Z) :
  require_publish_user request = inr user →
  0 ≤ MAX_FEED_COUNT →
  let only_publish := is_only_publish request in
  match hints with
  | Some ((_ :: _) as given) =>
      let capped := take (Z.to_nat MAX_FEED_COUNT) given in
      let ids := hint_id <$> capped in
      Z.of_nat (length capped) ≤ MAX_FEED_COUNT
      ∧ match check_unionid user ids with
        | inr _ =>
            ∃ result w',
              feed_query request hints detail w
              = (inr result,
                 [ECheckUnionid user ids;
                  EQueryByUser user (Some capped) detail only_publish], w')
              ∧ query_size result = Z.of_nat (length (query_feeds result))
              ∧ query_deleted_size result
                = Z.of_nat (length (query_deleted_ids result))
        | inl what =>
            feed_query request hints detail w
            = (inl (Raised what), [ECheckUnionid user ids], w)
        end
  | _ =>
      ∃ result w',
        feed_query request hints detail w
        = (inr result, [EQueryByUser user hints detail only_publish], w')
        ∧ query_size result = Z.of_nat (length (query_feeds result))
  end.
Proof.
  intros Huser Hmax only_publish. unfold feed_query. rewrite Huser.
  fold only_publish.
  assert (∀ l : list Hint, py_take MAX_FEED_COUNT l = take (Z.to_nat MAX_FEED_COUNT) l)
    as Htake.
  { intros l. unfold py_take. destruct (Z.leb_spec 0 MAX_FEED_COUNT); [done|lia]. }
  unfold bind, lift, check, ret, perform. simpl.
  destruct hints as [[|hint given]|].
  - destruct (query_by_user user (Some []) detail only_publish w)
      as [[[total feeds] deleted_ids] w'].
    eexists _, _. split; reflexivity.
  - rewrite Htake.
    set (capped := take (Z.to_nat MAX_FEED_COUNT) (hint :: given)).
    split. { subst capped. rewrite length_take. lia. }
    destruct (check_unionid user (hint_id <$> capped)) as [what|[]]; [reflexivity|].
    destruct (query_by_user user (Some capped) detail only_publish w)
      as [[[total feeds] deleted_ids] w'].
    eexists _, _. split; [reflexivity|]. split; reflexivity.
  - destruct (query_by_user user None detail only_publish w)
      as [[[total feeds] deleted_ids] w'].
    eexists _, _. split; reflexivity.
Qed.

Lemma import_items_of_app group imports import_items :
  import_items_of group imports import_items
  = match import_items_of group imports [] with
    | inr items => inr (import_items ++ items)
    | inl e => inl e
    end.
Proof.
  revert import_items. induction imports as [|raw imports IH]; intros acc; simpl.
  - by rewrite app_nil_r.
  - destruct (raw !! "url") as [url|]; [|done].
    rewrite (IH (acc ++ _)), (IH [_]).
    destruct (import_items_of group imports []); [done|].
    by rewrite <- app_assoc.
Qed.

(** X21: the import items are built one per import and in order.  An
    explicit, non-empty group overrides the group of every import;
    without it each import keeps its own group, or none; either way the
    group goes through [group_id_of].  An import without [url] fails the
    whole batch with [KeyError]. *)
Theorem import_items_of_imports (group : option string)
    (imports : list (gmap string Val)) :
  (Forall (λ raw, is_Some (raw !! "url")) imports →
   ∃ items,
     import_items_of group imports [] = inr items
     ∧ length items = length imports
     ∧ ∀ i raw item, imports !! i = Some raw → items !! i = Some item →
         raw !! "url" = Some (item_url item)
         ∧ item_title item = default VNone (raw !! "title")
         ∧ item_group item
           = group_id_of (if ostr_truthy group then opt_str group
                          else default VNone (raw !! "group")))
  ∧ (Exists (λ raw, raw !! "url" = None) imports →
     import_items_of group imports [] = inl (KeyError "url")).
Proof.
  split.
  - induction 1 as [|raw imports [url Hurl] _ (items & Hitems & Hlen & Hall)].
    { exists []. split; [done|]. split; [done|].
      intros k raw0 item0. by rewrite lookup_nil. }
    simpl. rewrite Hurl, import_items_of_app, Hitems. simpl.
    eexists. split; [reflexivity|]. split; [simpl; by rewrite Hlen|].
    intros [|k] raw' item; simpl.
    + intros [= <-] [= <-]. simpl. split; [done|]. split; [done|].
      destruct group as [[|c s]|]; done.
    + apply Hall.
  - induction 1 as [raw imports Hurl | raw imports _ IH]; simpl.
    + by rewrite Hurl.
    + destruct (raw !! "url"); [|done].
      by rewrite import_items_of_app, IH.
Qed.

(** X22: [_create_feeds_by_imports] stores the import items once and then
    hands the worker, in one batch, one [find_feed] request per feed
    creation, in order, each with the creation's id and URL.  What it
    returns is read off the storage's answer: its total, the created feeds
    and the feed creations as dicts, in order, the first of the existed
    feeds if there is one, and as counts the lengths of the three lists the
    storage answered with.  The bookmark flag has no influence.  If
    building the items fails, nothing is stored and nothing is handed to
    the worker. *)
Theorem create_feeds_by_imports_dispatches (user_id : Z)
    (imports : list (gmap string Val)) (group : option string)
    (is_from_bookmark : bool) (w : W) :
  match import_items_of group imports [] with
  | inr import_items =>
      let outcome := (create_by_imports import_items user_id w).1 in
      let w1 := (create_by_imports import_items user_id w).2 in
      let finds :=
        (λ c, {| find_feed_creation_id := creation_id c;
                 find_url := creation_url c |}) <$> feed_creations outcome in
      ∃ result,
        _create_feeds_by_imports user_id imports group is_from_bookmark w
        = (inr result,
           [ECreateByImports user_id import_items; EBatchFindFeed finds],
           batch_find_feed finds w1)
        ∧ length finds = length (feed_creations outcome)
        ∧ import_total result = outcome_total outcome
        ∧ import_created_feeds result = feed_to_dict <$> created_feeds outcome
        ∧ import_feed_creations result
          = creation_to_dict <$> feed_creations outcome
        ∧ first_existed_feed result = feed_to_dict <$> head (existed_feeds outcome)
        ∧ num_created_feeds result = Z.of_nat (length (created_feeds outcome))
        ∧ num_existed_feeds result = Z.of_nat (length (existed_feeds outcome))
        ∧ num_feed_creations result = Z.of_nat (length (feed_creations outcome))
        ∧ num_feed_creations result = Z.of_nat (length (import_feed_creations result))
        ∧ num_created_feeds result = Z.of_nat (length (import_created_feeds result))
        ∧ _create_feeds_by_imports user_id imports group (negb is_from_bookmark) w
          = _create_feeds_by_imports user_id imports group is_from_bookmark w
  | inl e =>
      _create_feeds_by_imports user_id imports group is_from_bookmark w
      = (inl e, [], w)
  end.
Proof.
  unfold _create_feeds_by_imports, bind at 1 3, lift.
  destruct (import_items_of group imports []) as [e|import_items]; [done|].
  unfold bind, perform, ret. cbv zeta.
  destruct (create_by_imports import_items user_id w) as [outcome w1]. simpl.
  eexists. split; [reflexivity|]. simpl.
  rewrite !length_fmap. repeat split.
  by destruct (existed_feeds outcome).
Qed.

Lemma import_items_of_length group imports acc items :
  import_items_of group imports acc = inr items →
  length items = (length acc + length imports)%nat.
Proof.
  revert acc. induction imports as [|raw imports IH]; intros acc; simpl.
  - intros [= <-]. lia.
  - destruct (raw !! "url"); [|done].
    intros Hitems%IH. rewrite length_app in Hitems. simpl in Hitems. lia.
Qed.

Lemma create_feeds_by_imports_stores user_id imports group is_from_bookmark (w : W)
    user items :
  ECreateByImports user items
  ∈ (_create_feeds_by_imports user_id imports group is_from_bookmark w).1.2 →
  user = user_id ∧ import_items_of group imports [] = inr items.
Proof.
  unfold _create_feeds_by_imports, bind at 1, lift.
  destruct (import_items_of group imports []) as [e|import_items]; simpl.
  { by intros ?%elem_of_nil. }
  unfold bind, perform, ret.
  destruct (create_by_imports import_items user_id w) as [outcome w1]. simpl.
  rewrite !elem_of_cons, elem_of_nil. intros [[= -> ->] | [[=] | []]]. done.
Qed.

Lemma feed_import_stores request text group (w : W) user items :
  ECreateByImports user items ∈ (feed_import request text group w).1.2 →
  Z.of_nat (length (import_feed_from_text text)) ≤ MAX_FEED_COUNT
  ∧ user = request_user_id request
  ∧ import_items_of group (import_feed_from_text text) [] = inr items.
Proof.
  unfold feed_import.
  destruct (Z.ltb_spec MAX_FEED_COUNT (Z.of_nat (length (import_feed_from_text text))))
    as [Hover|Hfits]; simpl.
  { by intros ?%elem_of_nil. }
  unfold bind at 1.
  destruct (_create_feeds_by_imports _ _ _ _ w) as [[[e|result] t] w1] eqn:Hrun;
    simpl; rewrite ?app_nil_r; intros Hin;
    apply (f_equal (λ r, r.1.2)) in Hrun; simpl in Hrun; rewrite <- Hrun in Hin;
    by apply create_feeds_by_imports_stores in Hin as [-> ?].
Qed.

(** X23: [feed_import] never stores more than [MAX_FEED_COUNT] feeds at a
    time.  A text with more feeds than that is answered with the status
    400 and nothing is stored or handed to the worker; and whatever
    [feed_import] stores is stored for the user of the request, is what
    the first loop of [_create_feeds_by_imports] makes of the feeds found
    in the text, and counts no more than [MAX_FEED_COUNT] items. *)
Theorem feed_import_respects_feed_limit (request : Request) (text : string)
    (group : option string) (w : W) :
  let import_feeds := import_feed_from_text text in
  (MAX_FEED_COUNT < Z.of_nat (length import_feeds) →
   ∃ message,
     feed_import request text group w = (inr (ErrorResponse message 400), [], w))
  ∧ (∀ user items,
       ECreateByImports user items ∈ (feed_import request text group w).1.2 →
       user = request_user_id request
       ∧ import_items_of group import_feeds [] = inr items
       ∧ length items = length import_feeds
       ∧ Z.of_nat (length items) ≤ MAX_FEED_COUNT).
Proof.
  intros import_feeds. split.
  - intros Hover. unfold feed_import. fold import_feeds.
    destruct (Z.ltb_spec MAX_FEED_COUNT (Z.of_nat (length import_feeds))); [|lia].
    by eexists.
  - intros user items (Hfits & -> & Hitems)%feed_import_stores.
    fold import_feeds in Hfits, Hitems.
    pose proof (import_items_of_length _ _ _ _ Hitems) as Hlen. simpl in Hlen.
    repeat split; [done|done|lia].
Qed.

(** X24: [feed_import_file] reaches the storage only with a file that was
    received and could be read as text, and with a group name of at most
    [MAX_GROUP_NAME_LENGTH] characters, if one was given; what it stores
    then is what [feed_import] stores for the text of the file. *)
Theorem feed_import_file_guards_storage (request : Request) (w : W)
    (user : Z) (items : list FeedImportItem) :
  ECreateByImports user items ∈ (feed_import_file request w).1.2 →
  ∃ fileobj text,
    request_FILES request !! "file" = Some fileobj
    ∧ file_truthy fileobj = true
    ∧ (file_read fileobj = inl text
       ∨ ∃ data, file_read fileobj = inr data ∧ utf8_decode data = Some text)
    ∧ (∀ group, request_GET request !! "group" = Some group →
         len group ≤ MAX_GROUP_NAME_LENGTH)
    ∧ user = request_user_id request
    ∧ import_items_of (request_GET request !! "group")
        (import_feed_from_text text) [] = inr items
    ∧ Z.of_nat (length items) ≤ MAX_FEED_COUNT.
Proof.
  unfold feed_import_file, bind at 1, lift, _read_request_file.
  destruct (request_FILES request !! "file") as [fileobj|]; simpl;
    [|by intros ?%elem_of_nil].
  destruct (file_truthy fileobj) eqn:Htruthy; simpl; [|by intros ?%elem_of_nil].
  assert (∀ text,
    ECreateByImports user items
    ∈ (let '(r, t2, w2) :=
         (if ostr_truthy (request_GET request !! "group")
             && (MAX_GROUP_NAME_LENGTH <? len (default "" (request_GET request !! "group")))
          then raise (RssantAPIException "group name length must <= 50")
          else feed_import request text (request_GET request !! "group")) w
       in (r, [] ++ t2, w2)).1.2 →
    (∀ group, request_GET request !! "group" = Some group →
       len group ≤ MAX_GROUP_NAME_LENGTH)
    ∧ user = request_user_id request
    ∧ import_items_of (request_GET request !! "group")
        (import_feed_from_text text) [] = inr items
    ∧ Z.of_nat (length items) ≤ MAX_FEED_COUNT) as Hrest.
  { intros text.
    destruct (ostr_truthy _ && _) eqn:Hguard; simpl; [by intros ?%elem_of_nil|].
    destruct (feed_import request text _ w) as [[r t] w1] eqn:Hrun. simpl.
    intros Hin. apply (f_equal (λ r, r.1.2)) in Hrun. simpl in Hrun.
    rewrite <- Hrun in Hin. apply feed_import_stores in Hin as (Hfits & -> & Hitems).
    pose proof (import_items_of_length _ _ _ _ Hitems) as Hlen. simpl in Hlen.
    split; [|repeat split; [done|lia]].
    intros group Hgroup. rewrite Hgroup in Hguard. simpl in Hguard.
    destruct group as [|c s]; [unfold MAX_GROUP_NAME_LENGTH, len; simpl; lia|].
    simpl in Hguard. apply Z.ltb_ge in Hguard. exact Hguard. }
  destruct (file_read fileobj) as [text|data] eqn:Hread.
  - intros Hin%Hrest. exists fileobj, text. repeat split; try tauto; eauto.
  - destruct (utf8_decode data) as [text|] eqn:Hdecode; [|by intros ?%elem_of_nil].
    intros Hin%Hrest. exists fileobj, text. repeat split; try tauto; eauto.
Qed.

(** X25: the rejections of [feed_import_file], in the order in which they
    are tried: a file that is missing or falsy, then a file whose bytes are
    not UTF-8, then a group name longer than [MAX_GROUP_NAME_LENGTH].  Each
    raises its own [RssantAPIException]; nothing is stored and nothing is
    handed to the worker.  A file that yields text is taken as it is,
    without decoding. *)
Theorem feed_import_file_rejects (request : Request) (w : W) :
  (match request_FILES request !! "file" with
   | Some fileobj => file_truthy fileobj = false
   | None => True
   end →
   feed_import_file request w
   = (inl (RssantAPIException "file not received"), [], w))
  ∧ (∀ fileobj data,
       request_FILES request !! "file" = Some fileobj →
       file_truthy fileobj = true →
       file_read fileobj = inr data →
       utf8_decode data = None →
       feed_import_file request w
       = (inl (RssantAPIException "file type or encoding invalid"), [], w))
  ∧ (∀ text filename group,
       _read_request_file request "file" = inr (text, filename) →
       request_GET request !! "group" = Some group →
       MAX_GROUP_NAME_LENGTH < len group →
       feed_import_file request w
       = (inl (RssantAPIException "group name length must <= 50"), [], w))
  ∧ (∀ fileobj text,
       request_FILES request !! "file" = Some fileobj →
       file_truthy fileobj = true →
       file_read fileobj = inl text →
       _read_request_file request "file" = inr (text, file_name fileobj)).
Proof.
  unfold feed_import_file, bind, lift, _read_request_file.
  split; [|split; [|split]].
  - destruct (request_FILES request !! "file") as [fileobj|]; [|done].
    by intros ->.
  - by intros fileobj data -> -> -> ->.
  - intros text filename group -> Hgroup Hlong. rewrite Hgroup. simpl.
    assert (str_truthy group = true) as ->.
    { destruct group; [unfold MAX_GROUP_NAME_LENGTH, len in Hlong; simpl in Hlong; lia|done]. }
    apply Z.ltb_lt in Hlong. by rewrite Hlong.
  - by intros fileobj text -> -> ->.
Qed.

End ViewFacts.

(** ** The views on the canned backend *)

Section ViewExamples.
#[local] Existing Instance fake_backend.

(** Three hints with a limit of two: the third is neither checked nor
    queried. *)
Lemma feed_query_checks_capped_hints_witness :
  let request := {| request_user_id := 7; request_FILES := ∅; request_GET := ∅ |} in
  let hint n := {| hint_id := mkUnionId 7 n; hint_dt_updated := 0 |} in
  require_publish_user request = inr 7
  ∧ ∃ result w',
      feed_query request (Some [hint 1; hint 2; hint 3]) VNone []
      = (inr result,
         [ECheckUnionid 7 [mkUnionId 7 1; mkUnionId 7 2];
          EQueryByUser 7 (Some [hint 1; hint 2]) VNone false], w')
      ∧ query_size result = Z.of_nat (length (query_feeds result))
      ∧ query_deleted_size result = Z.of_nat (length (query_deleted_ids result)).
Proof.
  intros request hint. split; [reflexivity|].
  refine (proj2 (feed_query_checks_capped_hints request
                   (Some [hint 1; hint 2; hint 3]) VNone [] 7 eq_refl _)).
  vm_compute. discriminate.
Defined.

(** Two imports under a group, and a batch spoilt by an import without
    [url]. *)
Lemma import_items_of_imports_witness :
  let imports : list (gmap string Val) :=
    [ <["url" := VStr "alpha"]> (<["title" := VStr "Alpha"]> ∅);
      <["url" := VStr "beta"]> (<["group" := VStr "news"]> ∅) ] in
  Forall (λ raw, is_Some (raw !! "url")) imports
  ∧ Exists (λ raw : gmap string Val, raw !! "url" = None) (imports ++ [∅])
  ∧ (∃ items, import_items_of None imports [] = inr items ∧ length items = 2%nat)
  ∧ import_items_of (Some "tech") (imports ++ [∅]) [] = inl (KeyError "url").
Proof.
  intros imports.
  assert (Forall (λ raw, is_Some (raw !! "url")) imports) as Hall.
  { repeat constructor; by eexists. }
  assert (Exists (λ raw : gmap string Val, raw !! "url" = None) (imports ++ [∅]))
    as Hsome.
  { apply Exists_app. right. by constructor. }
  split; [exact Hall|]. split; [exact Hsome|]. split.
  - destruct (proj1 (import_items_of_imports None imports) Hall)
      as (items & Hitems & Hlen & _).
    by exists items.
  - exact (proj2 (import_items_of_imports (Some "tech") (imports ++ [∅])) Hsome).
Defined.

(** Two imports stored for user 7: two creations, two requests to the
    worker, and counts of two, none and none. *)
Lemma create_feeds_by_imports_dispatches_witness :
  let imports : list (gmap string Val) :=
    [ <["url" := VStr "alpha"]> ∅; <["url" := VStr "beta"]> ∅ ] in
  let finds :=
    [ {| find_feed_creation_id := 100; find_url := "alpha" |};
      {| find_feed_creation_id := 101; find_url := "beta" |} ] in
  ∃ result items,
    _create_feeds_by_imports 7 imports None false []
    = (inr result, [ECreateByImports 7 items; EBatchFindFeed finds], finds)
    ∧ length items = 2%nat
    ∧ num_feed_creations result = 2
    ∧ num_created_feeds result = 0
    ∧ num_existed_feeds result = 0
    ∧ length (import_feed_creations result) = 2%nat
    ∧ first_existed_feed result = None.
Proof.
  intros imports finds.
  pose proof (create_feeds_by_imports_dispatches 7 imports None false
                ([] : list FindFeedItem)) as Hrun.
  vm_compute in Hrun.
  destruct Hrun as (result & Hrun & _ & _ & _ & Hcreations & Hfirst
                    & Hcreated & Hexisted & Hcount & _).
  eexists result, _. split; [exact Hrun|]. split; [reflexivity|].
  split; [exact Hcount|]. split; [exact Hcreated|]. split; [exact Hexisted|].
  split; [exact (f_equal length Hcreations)|exact Hfirst].
Defined.

(** Three feeds against a limit of two. *)
Lemma feed_import_respects_feed_limit_witness :
  let request := {| request_user_id := 7; request_FILES := ∅; request_GET := ∅ |} in
  MAX_FEED_COUNT < Z.of_nat (length (import_feed_from_text "alpha.beta.gamma"))
  ∧ ∃ message,
      feed_import request "alpha.beta.gamma" None []
      = (inr (ErrorResponse message 400), [], []).
Proof.
  intros request.
  assert (MAX_FEED_COUNT < Z.of_nat (length (import_feed_from_text "alpha.beta.gamma")))
    as Hover by (vm_compute; reflexivity).
  split; [exact Hover|].
  exact (proj1 (feed_import_respects_feed_limit request "alpha.beta.gamma" None [])
           Hover).
Defined.

(** A file of two feeds, imported under the group [tech]. *)
Lemma feed_import_file_guards_storage_witness :
  let request :=
    {| request_user_id := 7;
       request_FILES :=
         {[ "file" := {| file_name := "feeds.txt"; file_read := inl "alpha.beta" |} ]};
       request_GET := {[ "group" := "tech" ]} |} in
  let items :=
    [ {| item_url := VStr "alpha"; item_title := VNone; item_group := VStr "tech" |};
      {| item_url := VStr "beta"; item_title := VNone; item_group := VStr "tech" |} ] in
  ECreateByImports 7 items ∈ (feed_import_file request []).1.2
  ∧ ∃ fileobj text,
      request_FILES request !! "file" = Some fileobj
      ∧ file_truthy fileobj = true
      ∧ (file_read fileobj = inl text
         ∨ ∃ data, file_read fileobj = inr data ∧ utf8_decode data = Some text)
      ∧ (∀ group, request_GET request !! "group" = Some group →
           len group ≤ MAX_GROUP_NAME_LENGTH)
      ∧ 7 = request_user_id request
      ∧ import_items_of (request_GET request !! "group")
          (import_feed_from_text text) [] = inr items
      ∧ Z.of_nat (length items) ≤ MAX_FEED_COUNT.
Proof.
  intros request items.
  assert (ECreateByImports 7 items ∈ (feed_import_file request []).1.2) as Hin.
  { vm_compute. constructor. }
  split; [exact Hin|].
  exact (feed_import_file_guards_storage request [] 7 items Hin).
Defined.

(** No file; bytes that do not decode; a group name of 51 characters. *)
Lemma feed_import_file_rejects_witness :
  let upload content :=
    {[ "file" := {| file_name := "feeds.txt"; file_read := content |} ]} in
  let nothing := {| request_user_id := 7; request_FILES := ∅; request_GET := ∅ |} in
  let binary :=
    {| request_user_id := 7; request_FILES := upload (inr [Byte.xff]);
       request_GET := ∅ |} in
  let long_group :=
    {| request_user_id := 7; request_FILES := upload (inl "alpha.beta");
       request_GET := {[ "group" := str_mul "g" 51 ]} |} in
  feed_import_file nothing []
  = (inl (RssantAPIException "file not received"), [], [])
  ∧ feed_import_file binary []
    = (inl (RssantAPIException "file type or encoding invalid"), [], [])
  ∧ feed_import_file long_group []
    = (inl (RssantAPIException "group name length must <= 50"), [], []).
Proof.
  intros upload nothing binary long_group. split; [|split].
  - exact (proj1 (feed_import_file_rejects nothing []) I).
  - refine (proj1 (proj2 (feed_import_file_rejects binary []))
              {| file_name := "feeds.txt"; file_read := inr [Byte.xff] |}
              [Byte.xff] _ _ _ _); by vm_compute.
  - refine (proj1 (proj2 (proj2 (feed_import_file_rejects long_group [])))
              "alpha.beta" "feeds.txt" (str_mul "g" 51) _ _ _); by vm_compute.
Defined.

End ViewExamples.
End ApiFacts.
